(** * camelot/core.py: the Cell / Table grid model

    A shallow embedding of [Cell] and [Table] from [camelot/core.py]
    together with the boundary-assignment ([set_all_edges], [set_edges],
    [set_border]) and span-inference ([set_span]) methods.

    Python objects are mutated in place and an exception leaves the
    mutations made so far in the object.  Methods are therefore modelled
    in a small state-and-exception monad over the cell grid: a
    computation maps the grid to an outcome (a value or a raised
    exception) *and* the grid as it is afterwards.

    Coordinates are kept abstract (a type [coord] and the closeness test
    [isclose], which stands for [numpy.isclose(a, b, atol=tol)]); the
    concrete scenarios instantiate them with binary64 floats. *)

From Stdlib Require Import ZArith Ascii String PrimFloat DecimalString.
From stdpp Require Import base list.

Local Open Scope Z_scope.

(** ** Python run-time behaviour *)

(** The two exceptions the modelled methods can raise. *)
Inductive exn : Set :=
| IndexError
| UnboundLocalError.

Inductive outcome (A : Type) : Type :=
| Returned (a : A)
| Raised (e : exn).
Arguments Returned {A} a.
Arguments Raised {A} e.

(** [xs[i]] on a list of length [n]: a negative index counts from the
    end, anything outside [-n .. n-1] is an [IndexError]. *)
Definition py_index (n : nat) (i : Z) : option nat :=
  if (0 <=? i) && (i <? Z.of_nat n) then Some (Z.to_nat i)
  else if (- Z.of_nat n <=? i) && (i <? 0) then Some (Z.to_nat (i + Z.of_nat n))
  else None.

(** [len(xs)] as a Python integer. *)
Definition len {A} (xs : list A) : Z := Z.of_nat (length xs).

(** [range(n)]. *)
Definition range (n : Z) : list Z := seqZ 0 n.

(** ** [str.strip()]

    A string is a sequence of characters with code points below 256;
    [isspace] is Python's [str.isspace] on that range. *)
Definition isspace (a : ascii) : bool :=
  let n := nat_of_ascii a in
  ((9 <=? n)%nat && (n <=? 13)%nat) || ((28 <=? n)%nat && (n <=? 32)%nat)
  || (n =? 133)%nat || (n =? 160)%nat.

Fixpoint lstrip (s : string) : string :=
  match s with
  | EmptyString => EmptyString
  | String a s' => if isspace a then lstrip s' else s
  end.

Fixpoint rstrip (s : string) : string :=
  match s with
  | EmptyString => EmptyString
  | String a s' =>
      match rstrip s' with
      | EmptyString => if isspace a then EmptyString else String a EmptyString
      | r => String a r
      end
  end.

Definition strip (s : string) : string := rstrip (lstrip s).

(** [sep.join(parts)]. *)
Definition join (sep : string) (parts : list string) : string :=
  String.concat sep parts.

Section Camelot.

Context {coord : Type}.

(** [isclose a b tol] is [np.isclose(a, b, atol=tol)]. *)
Variable isclose : coord → coord → coord → bool.

(** ** class Cell *)

Record Cell : Type := mkCell {
  x1 : coord;
  y1 : coord;
  x2 : coord;
  y2 : coord;
  left : bool;
  right : bool;
  top : bool;
  bottom : bool;
  hspan : bool;
  vspan : bool;
  _text : string
}.

(** [Cell.__init__] (the corner tuples [lb], [lt], [rb], [rt] are
    projections of the four coordinates). *)
Definition Cell_init (x1 y1 x2 y2 : coord) : Cell :=
  mkCell x1 y1 x2 y2 false false false false false false EmptyString.

Definition lb (c : Cell) : coord * coord := (x1 c, y1 c).
Definition lt (c : Cell) : coord * coord := (x1 c, y2 c).
Definition rb (c : Cell) : coord * coord := (x2 c, y1 c).
Definition rt (c : Cell) : coord * coord := (x2 c, y2 c).

(** Attribute assignments [cell.left = b], ... *)
Definition set_left (b : bool) (c : Cell) : Cell :=
  mkCell (x1 c) (y1 c) (x2 c) (y2 c) b (right c) (top c) (bottom c)
         (hspan c) (vspan c) (_text c).
Definition set_right (b : bool) (c : Cell) : Cell :=
  mkCell (x1 c) (y1 c) (x2 c) (y2 c) (left c) b (top c) (bottom c)
         (hspan c) (vspan c) (_text c).
Definition set_top (b : bool) (c : Cell) : Cell :=
  mkCell (x1 c) (y1 c) (x2 c) (y2 c) (left c) (right c) b (bottom c)
         (hspan c) (vspan c) (_text c).
Definition set_bottom (b : bool) (c : Cell) : Cell :=
  mkCell (x1 c) (y1 c) (x2 c) (y2 c) (left c) (right c) (top c) b
         (hspan c) (vspan c) (_text c).
Definition set_hspan (b : bool) (c : Cell) : Cell :=
  mkCell (x1 c) (y1 c) (x2 c) (y2 c) (left c) (right c) (top c) (bottom c)
         b (vspan c) (_text c).
Definition set_vspan (b : bool) (c : Cell) : Cell :=
  mkCell (x1 c) (y1 c) (x2 c) (y2 c) (left c) (right c) (top c) (bottom c)
         (hspan c) b (_text c).

(** The [text] property: the getter returns the buffer as it is, the
    setter appends with [''.join([self._text, t])]. *)
Definition text (c : Cell) : string := _text c.

Definition text_setter (c : Cell) (t : string) : Cell :=
  mkCell (x1 c) (y1 c) (x2 c) (y2 c) (left c) (right c) (top c) (bottom c)
         (hspan c) (vspan c) (join EmptyString [_text c; t]).

(** The [bound] property: [top + bottom + left + right] on booleans. *)
Definition bound (c : Cell) : Z :=
  Z.b2z (top c) + Z.b2z (bottom c) + Z.b2z (left c) + Z.b2z (right c).

(** ** The grid and its monad *)

#[local] Abbreviation grid := (list (list Cell)).

Definition M (A : Type) : Type := grid → outcome A * grid.

Definition ret {A} (a : A) : M A := λ g, (Returned a, g).

Definition raise {A} (e : exn) : M A := λ g, (Raised e, g).

Definition bind {A B} (m : M A) (k : A → M B) : M B := λ g,
  match m g with
  | (Returned a, g') => k a g'
  | (Raised e, g') => (Raised e, g')
  end.

#[local] Instance M_ret : MRet M := @ret.
#[local] Instance M_bind : MBind M := λ A B k m, bind m k.

(** [self.cells[r][c].attr = v]: both subscripts follow Python's
    indexing rules, then the cell found is updated in place. *)
Definition setattr (r c : Z) (f : Cell → Cell) : M unit := λ g,
  match py_index (length g) r with
  | None => (Raised IndexError, g)
  | Some r' =>
      match g !! r' with
      | None => (Raised IndexError, g)
      | Some row =>
          match py_index (length row) c with
          | None => (Raised IndexError, g)
          | Some c' => (Returned tt, alter (alter f c') r' g)
          end
      end
  end.

(** [for row in self.cells: for cell in row: <update cell>]. *)
Definition for_cells (f : Cell → Cell) : M unit := λ g,
  (Returned tt, (λ row : list Cell, f <$> row) <$> g).

(** [for x in xs: body]. *)
Fixpoint for_each {A} (xs : list A) (body : A → M unit) : M unit :=
  match xs with
  | [] => ret tt
  | x :: xs' => body x ;; for_each xs' body
  end.

(** [while J < K: body; J += 1].  The body does not assign [J] or [K],
    so the loop runs exactly [max 0 (K - J)] times. *)
Fixpoint while_iter (n : nat) (J : Z) (body : Z → M unit) : M unit :=
  match n with
  | O => ret tt
  | S n' => body J ;; while_iter n' (J + 1) body
  end.

Definition while_lt (J K : Z) (body : Z → M unit) : M unit :=
  while_iter (Z.to_nat (K - J)) J body.

(** ** class Table *)

#[local] Abbreviation interval := (coord * coord)%type.

(** A detected line segment, a 4-tuple [(l[0], l[1], l[2], l[3])]. *)
#[local] Abbreviation line := (coord * coord * coord * coord)%type.
Definition l0 (l : line) : coord := l.1.1.1.
Definition l1 (l : line) : coord := l.1.1.2.
Definition l2 (l : line) : coord := l.1.2.
Definition l3 (l : line) : coord := l.2.

(** The materialised result is assigned by callers; only its absence
    matters here. *)
Definition DataFrame : Type := list (list string).

Record Table : Type := mkTable {
  cols : list interval;
  rows : list interval;
  cells : grid;
  df : option DataFrame;
  shape : Z * Z;
  accuracy : Z;
  whitespace : Z;
  order : option Z;
  page : option Z
}.

(** [Table.__init__]. *)
Definition Table_init (cols rows : list interval) : Table :=
  mkTable cols rows
    ((λ r, (λ c, Cell_init c.1 r.2 c.2 r.1) <$> cols) <$> rows)
    None (0, 0) 0 0 None None.

(** The [data] property. *)
Definition data (t : Table) : list (list string) :=
  (λ row : list Cell, (λ cell, strip (text cell)) <$> row) <$> cells t.

(** A method body run on [self]: the cell grid is the only part of the
    table the methods below assign to. *)
Definition call (m : M unit) (t : Table) : outcome unit * Table :=
  let '(o, g) := m (cells t) in
  (o, mkTable (cols t) (rows t) g (df t) (shape t) (accuracy t)
              (whitespace t) (order t) (page t)).

(** *** set_all_edges *)

Definition all_edges (cell : Cell) : Cell :=
  set_left true (set_right true (set_top true (set_bottom true cell))).

Definition set_all_edges (t : Table) : outcome unit * Table :=
  call (for_cells all_edges) t.

(** *** set_edges *)

(** [[n for n, t in enumerate(ts) if np.isclose(x, t[0], atol=tol)]],
    with the enumeration starting at [n]. *)
Fixpoint close_from (n : Z) (x tol : coord) (ts : list interval) : list Z :=
  match ts with
  | [] => []
  | t :: ts' =>
      if isclose x t.1 tol then n :: close_from (n + 1) x tol ts'
      else close_from (n + 1) x tol ts'
  end.

Definition close_indices (x tol : coord) (ts : list interval) : list Z :=
  close_from 0 x tol ts.

(** [xs[0]] where the code has already checked that [xs] is not empty. *)
Definition item0 (xs : list Z) : Z := hd 0 xs.

(** One iteration of [for v in vertical].  The local variable [L]
    outlives the iteration, so its binding (if any) is passed in and
    out. *)
Definition vertical_step (cols rows : list interval) (tol : coord)
    (v : line) (L : option Z) : M (option Z) :=
  let i := close_indices (l0 v) tol cols in
  let j := close_indices (l3 v) tol rows in
  let k := close_indices (l1 v) tol rows in
  match j with
  | [] => ret L
  | J :: _ =>
      if decide (i = [0]) then
        let L := item0 i in
        match k with
        | K :: _ =>
            while_lt J K (λ J, setattr J L (set_left true)) ;; ret (Some L)
        | [] =>
            let K := len rows in
            while_lt J K (λ J, setattr J L (set_left true)) ;; ret (Some L)
        end
      else if decide (i = []) then
        let L := len cols - 1 in
        match k with
        | K :: _ =>
            while_lt J K (λ J, setattr J L (set_right true)) ;; ret (Some L)
        | [] =>
            let K := len rows in
            while_lt J K (λ J, setattr J L (set_right true)) ;; ret (Some L)
        end
      else
        let L := item0 i in
        match k with
        | K :: _ =>
            while_lt J K (λ J, setattr J L (set_left true) ;;
                               setattr J (L - 1) (set_right true)) ;;
            ret (Some L)
        | [] =>
            let K := len rows in
            while_lt J K (λ J, setattr J L (set_left true) ;;
                               setattr J (L - 1) (set_right true)) ;;
            ret (Some L)
        end
  end.

(** [self.cells[L][J].bottom = True] in the "only bottom edge" branch:
    [L] is read there without being assigned in that branch. *)
Definition setattr_at_L (L : option Z) (J : Z) (f : Cell → Cell) : M unit :=
  match L with
  | None => raise UnboundLocalError
  | Some L => setattr L J f
  end.

(** One iteration of [for h in horizontal]. *)
Definition horizontal_step (cols rows : list interval) (tol : coord)
    (h : line) (L : option Z) : M (option Z) :=
  let i := close_indices (l1 h) tol rows in
  let j := close_indices (l0 h) tol cols in
  let k := close_indices (l2 h) tol cols in
  match j with
  | [] => ret L
  | J :: _ =>
      if decide (i = [0]) then
        let L := item0 i in
        match k with
        | K :: _ =>
            while_lt J K (λ J, setattr L J (set_top true)) ;; ret (Some L)
        | [] =>
            let K := len cols in
            while_lt J K (λ J, setattr L J (set_top true)) ;; ret (Some L)
        end
      else if decide (i = []) then
        let I := len rows - 1 in
        match k with
        | K :: _ =>
            while_lt J K (λ J, setattr_at_L L J (set_bottom true)) ;; ret L
        | [] =>
            let K := len cols in
            while_lt J K (λ J, setattr_at_L L J (set_bottom true)) ;; ret L
        end
      else
        let L := item0 i in
        match k with
        | K :: _ =>
            while_lt J K (λ J, setattr L J (set_top true) ;;
                               setattr (L - 1) J (set_bottom true)) ;;
            ret (Some L)
        | [] =>
            let K := len cols in
            while_lt J K (λ J, setattr L J (set_top true) ;;
                               setattr (L - 1) J (set_bottom true)) ;;
            ret (Some L)
        end
  end.

(** A [for] loop over the detected lines, threading the local [L]. *)
Fixpoint for_lines (step : line → option Z → M (option Z))
    (ls : list line) (L : option Z) : M (option Z) :=
  match ls with
  | [] => ret L
  | l :: ls' => L' ← step l L; for_lines step ls' L'
  end.

Definition set_edges_body (cols rows : list interval)
    (vertical horizontal : list line) (joint_close_tol : coord) : M unit :=
  L ← for_lines (vertical_step cols rows joint_close_tol) vertical None;
  for_lines (horizontal_step cols rows joint_close_tol) horizontal L ;;
  ret tt.

Definition set_edges (t : Table) (vertical horizontal : list line)
    (joint_close_tol : coord) : outcome unit * Table :=
  call (set_edges_body (cols t) (rows t) vertical horizontal joint_close_tol) t.

(** *** set_border *)

Definition set_border_body (cols rows : list interval) : M unit :=
  for_each (range (len rows)) (λ r,
    setattr r 0 (set_left true) ;;
    setattr r (len cols - 1) (set_right true)) ;;
  for_each (range (len cols)) (λ c,
    setattr 0 c (set_top true) ;;
    setattr (len rows - 1) c (set_bottom true)).

Definition set_border (t : Table) : outcome unit * Table :=
  call (set_border_body (cols t) (rows t)) t.

(** *** set_span *)

Definition span_cell (cell : Cell) : Cell :=
  let left := left cell in
  let right := right cell in
  let top := top cell in
  let bottom := bottom cell in
  if bound cell =? 4 then cell
  else if bound cell =? 3 then
    if negb left && (right && top && bottom) then set_hspan true cell
    else if negb right && (left && top && bottom) then set_hspan true cell
    else if negb top && (left && right && bottom) then set_vspan true cell
    else if negb bottom && (left && right && top) then set_vspan true cell
    else cell
  else if bound cell =? 2 then
    if left && right && (negb top && negb bottom) then set_vspan true cell
    else if top && bottom && (negb left && negb right) then set_hspan true cell
    else cell
  else cell.

Definition set_span (t : Table) : outcome unit * Table :=
  call (for_cells span_cell) t.

(** ** Observations used in the statements *)

(** The cell in row [r], column [c] of a grid, if there is one. *)
Definition cell_at (g : grid) (r c : nat) : option Cell :=
  row ← g !! r; row !! c.

(** Two grids with the same number of rows and the same row lengths. *)
Definition same_dims (g g' : grid) : Prop :=
  length <$> g' = length <$> g.

(** A grid of exactly [N] rows of [M] cells. *)
Definition has_shape (N M : nat) (g : grid) : Prop :=
  length g = N ∧ Forall (λ row, length row = M) g.

(** Every boundary flag that is set in [c] is still set in [c']. *)
Definition flags_le (c c' : Cell) : Prop :=
  (left c = true → left c' = true) ∧
  (right c = true → right c' = true) ∧
  (top c = true → top c' = true) ∧
  (bottom c = true → bottom c' = true).

(** The invariant of the data model, relating a table before and after
    a method call. *)
Definition table_invariant (t t' : Table) : Prop :=
  cols t' = cols t ∧ rows t' = rows t ∧
  same_dims (cells t) (cells t') ∧
  (∀ r c cell, cell_at (cells t) r c = Some cell →
     ∃ cell', cell_at (cells t') r c = Some cell' ∧ flags_le cell cell') ∧
  (∀ r c cell', cell_at (cells t') r c = Some cell' → 0 <= bound cell' <= 4).

(** Cell-wise relation between two grids of the same dimensions. *)
Definition grid_rel (R : Cell → Cell → Prop) (g g' : grid) : Prop :=
  Forall2 (Forall2 R) g g'.

(** Whatever its outcome, [m] leaves every cell related to what it was. *)
Definition preserves {A} (R : Cell → Cell → Prop) (m : M A) : Prop :=
  ∀ g, grid_rel R g (m g).2.

(** No span flag is set anywhere in the grid: the state in which span
    inference finds a table that has only been through construction and
    boundary assignment. *)
Definition unspanned (g : grid) : Prop :=
  ∀ r c cell, cell_at g r c = Some cell → hspan cell = false ∧ vspan cell = false.

(** The span flags the classification gives a cell with boundary flags
    [l r t b], as the pair (hspan, vspan), case by case: all four sides
    bounded, no span; three sides with left or right missing, [hspan];
    three sides with top or bottom missing, [vspan]; exactly left and
    right, [vspan]; exactly top and bottom, [hspan]; two orthogonal
    sides, one side or none, no span. *)
Definition spans_of_flags (l r t b : bool) : bool * bool :=
  match l, r, t, b with
  | true, true, true, true => (false, false)
  | false, true, true, true | true, false, true, true => (true, false)
  | true, true, false, true | true, true, true, false => (false, true)
  | true, true, false, false => (false, true)
  | false, false, true, true => (true, false)
  | _, _, _, _ => (false, false)
  end.

Definition classification (cell : Cell) : bool * bool :=
  spans_of_flags (left cell) (right cell) (top cell) (bottom cell).

(** A cell whose span flags are exactly those its own boundary flags
    call for. *)
Definition classified (cell : Cell) : Prop :=
  (hspan cell, vspan cell) = classification cell.

(** The tables a program can build with this class: constructed by
    [Table.__init__], then taken through any sequence of the four
    operations, each of which may return or raise. *)
Inductive reachable : Table → Prop :=
| reach_init cols rows : reachable (Table_init cols rows)
| reach_set_all_edges t : reachable t → reachable (set_all_edges t).2
| reach_set_edges t vertical horizontal tol :
    reachable t → reachable (set_edges t vertical horizontal tol).2
| reach_set_border t : reachable t → reachable (set_border t).2
| reach_set_span t : reachable t → reachable (set_span t).2.

(** What the span flags of a cell say about its boundary flags in every
    reachable table. *)
Definition span_ok (cell : Cell) : Prop :=
  (hspan cell = true → top cell = true ∧ bottom cell = true) ∧
  (vspan cell = true → left cell = true ∧ right cell = true) ∧
  ¬ (hspan cell = true ∧ vspan cell = true).

(** The number of boundary flags set in the whole grid. *)
Definition sumZ (xs : list Z) : Z := foldr Z.add 0 xs.

Definition total_bound (g : grid) : Z :=
  sumZ ((λ row : list Cell, sumZ (bound <$> row)) <$> g).

(** On grids of [nr] rows of [nc] cells, [m] returns normally, keeps
    the shape and turns the cell in row [r], column [c] into [E r c] of
    it. *)
Definition acts_as (nr nc : nat) (m : M unit) (E : nat → nat → Cell → Cell) : Prop :=
  ∀ g, has_shape nr nc g →
    ∃ g', m g = (Returned tt, g') ∧ has_shape nr nc g' ∧
      ∀ r c, cell_at g' r c = E r c <$> cell_at g r c.

(** What [set_border] does to the cell in row [r], column [c] of an
    [N] by [M] grid. *)
Definition border_cell (N M r c : nat) (cell : Cell) : Cell :=
  let cell := if decide (c = 0%nat) then set_left true cell else cell in
  let cell := if decide (c = (M - 1)%nat) then set_right true cell else cell in
  let cell := if decide (r = 0%nat) then set_top true cell else cell in
  if decide (r = (N - 1)%nat) then set_bottom true cell else cell.

(** All four boundary flags of every cell are false. *)
Definition unbounded (g : grid) : Prop :=
  ∀ r c cell, cell_at g r c = Some cell →
    left cell = false ∧ right cell = false ∧
    top cell = false ∧ bottom cell = false.

(** What a caller's [table.cells[r][c].text = s] does, for a
    non-negative row [r] and column [c]; [op] is [(r, c, s)]. *)
Definition assign_text (op : nat * nat * string) : M unit :=
  setattr (Z.of_nat op.1.1) (Z.of_nat op.1.2) (λ cell, text_setter cell op.2).

(** The strings a sequence of such assignments appends to the cell in
    row [r], column [c], in call order. *)
Definition appended (ops : list (nat * nat * string)) (r c : nat) : list string :=
  snd <$> filter (λ op, op.1 = (r, c)) ops.

(** The four boundary flags of a cell, as (left, right, top, bottom). *)
Definition flags (c : Cell) : bool * bool * bool * bool :=
  (left c, right c, top c, bottom c).

Definition flags_of (t : Table) : list (list (bool * bool * bool * bool)) :=
  (λ row : list Cell, flags <$> row) <$> cells t.

(** The relation "if [c] satisfied [P], so does [c']". *)
Definition keeps (P : Cell → Prop) (c c' : Cell) : Prop := P c → P c'.

(** Neither span flag of the cell is set. *)
Definition no_span (cell : Cell) : Prop :=
  hspan cell = false ∧ vspan cell = false.

(** The tables of the first phase of the life cycle: constructed, then
    taken through boundary assignment only. *)
Inductive edged : Table → Prop :=
| edged_init cols rows : edged (Table_init cols rows)
| edged_set_all_edges t : edged t → edged (set_all_edges t).2
| edged_set_edges t vertical horizontal tol :
    edged t → edged (set_edges t vertical horizontal tol).2
| edged_set_border t : edged t → edged (set_border t).2.


(** ** Further observations *)

(** [c'] is [c] up to its four boundary flags. *)
Definition same_but_flags (c c' : Cell) : Prop :=
  x1 c' = x1 c ∧ y1 c' = y1 c ∧ x2 c' = x2 c ∧ y2 c' = y2 c ∧
  hspan c' = hspan c ∧ vspan c' = vspan c ∧ _text c' = _text c.

(** [c'] is [c] up to its two span flags, and a span flag that was set
    is still set. *)
Definition same_but_spans (c c' : Cell) : Prop :=
  x1 c' = x1 c ∧ y1 c' = y1 c ∧ x2 c' = x2 c ∧ y2 c' = y2 c ∧
  left c' = left c ∧ right c' = right c ∧
  top c' = top c ∧ bottom c' = bottom c ∧ _text c' = _text c ∧
  (hspan c = true → hspan c' = true) ∧ (vspan c = true → vspan c' = true).

(** [t'] is [t] with every cell replaced by an [R]-related one: all the
    other attributes and the dimensions of the grid are the same. *)
Definition cellwise (R : Cell → Cell → Prop) (t t' : Table) : Prop :=
  cols t' = cols t ∧ rows t' = rows t ∧ df t' = df t ∧ shape t' = shape t ∧
  accuracy t' = accuracy t ∧ whitespace t' = whitespace t ∧
  order t' = order t ∧ page t' = page t ∧
  same_dims (cells t) (cells t') ∧
  ∀ r c cell, cell_at (cells t) r c = Some cell →
    ∃ cell', cell_at (cells t') r c = Some cell' ∧ R cell cell'.


(** ** The edges an operation draws *)

(** A set of sides of a cell. *)
Record edges : Set := mkEdges {
  e_left : bool;
  e_right : bool;
  e_top : bool;
  e_bottom : bool
}.

Definition no_edges : edges := mkEdges false false false false.

Definition join_edges (a b : edges) : edges :=
  mkEdges (e_left a || e_left b) (e_right a || e_right b)
          (e_top a || e_top b) (e_bottom a || e_bottom b).

(** The cell with the boundary flags of the sides in [e] set to true and
    everything else as it is. *)
Definition mark (e : edges) (c : Cell) : Cell :=
  mkCell (x1 c) (y1 c) (x2 c) (y2 c)
         (left c || e_left e) (right c || e_right e)
         (top c || e_top e) (bottom c || e_bottom e)
         (hspan c) (vspan c) (_text c).

(** On grids of [nr] rows of [nc] cells, [m] returns normally, keeps
    the shape and sets, in the cell in row [r], column [c], exactly the
    flags of the sides [W r c]. *)
Definition draws {A} (nr nc : nat) (m : M A) (W : nat → nat → edges) : Prop :=
  ∀ g, has_shape nr nc g →
    ∃ a g', m g = (Returned a, g') ∧ has_shape nr nc g' ∧
      ∀ r c, cell_at g' r c = mark (W r c) <$> cell_at g r c.

(** Where a run of cells ends: at the first match [k[0]] of the far
    extremity, or at the end of the axis, of length [n], when there is
    no match. *)
Definition run_end (k : list Z) (n : nat) : nat :=
  match k with
  | K :: _ => Z.to_nat K
  | [] => n
  end.

(** The position Python reads for the subscript [l - 1] on a list of
    length [n], for [0 <= l < n]: index -1 is the last element. *)
Definition wrap_pred (n l : nat) : nat :=
  if decide (l = 0%nat) then (n - 1)%nat else (l - 1)%nat.

(** The sides a vertical segment draws on the cell in row [r], column
    [c]: the three branches of the first loop of [set_edges]. *)
Definition vertical_edges (cols rows : list interval) (tol : coord)
    (v : line) (r c : nat) : edges :=
  let i := close_indices (l0 v) tol cols in
  let j := close_indices (l3 v) tol rows in
  let k := close_indices (l1 v) tol rows in
  match j with
  | [] => no_edges
  | J :: _ =>
      if bool_decide (Z.to_nat J ≤ r < run_end k (length rows))%nat then
        if decide (i = [0]) then
          mkEdges (bool_decide (c = 0%nat)) false false false
        else if decide (i = []) then
          mkEdges false (bool_decide (c = (length cols - 1)%nat)) false false
        else
          mkEdges (bool_decide (c = Z.to_nat (item0 i)))
                  (bool_decide (c = wrap_pred (length cols) (Z.to_nat (item0 i))))
                  false false
      else no_edges
  end.

(** The sides a horizontal segment draws when its y is close to some
    row (the "only top edge" and "both top and bottom edges" branches of
    the second loop); the "only bottom edge" branch is left out. *)
Definition horizontal_edges (cols rows : list interval) (tol : coord)
    (h : line) (r c : nat) : edges :=
  let i := close_indices (l1 h) tol rows in
  let j := close_indices (l0 h) tol cols in
  let k := close_indices (l2 h) tol cols in
  match j with
  | [] => no_edges
  | J :: _ =>
      if bool_decide (Z.to_nat J ≤ c < run_end k (length cols))%nat then
        if decide (i = [0]) then
          mkEdges false false (bool_decide (r = 0%nat)) false
        else if decide (i = []) then
          no_edges
        else
          mkEdges false false
                  (bool_decide (r = Z.to_nat (item0 i)))
                  (bool_decide (r = wrap_pred (length rows) (Z.to_nat (item0 i))))
      else no_edges
  end.

(** The sides drawn by a list of segments together. *)
Definition union_edges (Ws : list (nat → nat → edges)) (r c : nat) : edges :=
  foldr (λ W acc, join_edges (W r c) acc) no_edges Ws.

Definition drawn (cols rows : list interval) (tol : coord)
    (vertical horizontal : list line) (r c : nat) : edges :=
  join_edges (union_edges (vertical_edges cols rows tol <$> vertical) r c)
             (union_edges (horizontal_edges cols rows tol <$> horizontal) r c).


(** The grid has one row of cells per row interval and one cell per
    column interval in each, as [Table.__init__] builds it. *)
Definition well_formed (t : Table) : Prop :=
  has_shape (length (rows t)) (length (cols t)) (cells t).

(** A horizontal segment whose y is close to some row. *)
Definition row_anchored (rows : list interval) (tol : coord) (h : line) : Prop :=
  close_indices (l1 h) tol rows ≠ [].

(** The run of a vertical segment anchored at row [J] whose other
    y-coordinate matches no row: rows before [J] are left alone, and in
    every row from [J] to the last one some cell has [left] or [right]
    set. *)
Definition runs_to_last_row (t t' : Table) (J : nat) : Prop :=
  (∀ r c, (r < J)%nat → cell_at (cells t') r c = cell_at (cells t) r c) ∧
  (∀ r, (J ≤ r < length (rows t))%nat →
     ∃ c cell', cell_at (cells t') r c = Some cell' ∧
       (left cell' = true ∨ right cell' = true)).

End Camelot.

(** * Export: the [to_*] methods and [TableList]

    Writing files is the work of pandas, [zipfile], [tempfile] and
    [os.path].  The model records the calls made to them, in order, with
    their arguments, and assumes each call succeeds; the one failure that
    comes from this code's own data, a table whose [df] is still [None],
    raises [AttributeError] as in Python.  A computation is an outcome
    together with the calls made up to it. *)

(** Values passed as keyword arguments. *)
Inductive pyval : Set :=
| PStr (s : string)
| PBool (b : bool)
| PInt (z : Z)
| PNone.

(** A keyword dictionary, in insertion order, with distinct keys. *)
Definition kwdict : Type := list (string * pyval).

(** [d[k] = v]. *)
Fixpoint dict_set (k : string) (v : pyval) (d : kwdict) : kwdict :=
  match d with
  | [] => [(k, v)]
  | (k', v') :: d' =>
      if String.eqb k k' then (k, v) :: d' else (k', v') :: dict_set k v d'
  end.

(** [d.update(other)]. *)
Definition dict_update (d other : kwdict) : kwdict :=
  fold_left (λ acc kv, dict_set kv.1 kv.2 acc) other d.

(** The text a [DataFrame] method returns: [df.to_json] or [df.to_html]
    called with keyword arguments [kw]. *)
Inductive rendered : Type :=
| DataFrame_to_json (df : list (list string)) (kw : kwdict)
| DataFrame_to_html (df : list (list string)) (kw : kwdict).

(** The calls made to the libraries; [write_text path s] stands for
    [with open(path, 'w') as f: f.write(s)]. *)
Inductive action : Type :=
| DataFrame_to_csv (df : list (list string)) (path : string) (kw : kwdict)
| write_text (path : string) (content : rendered)
| ExcelWriter (path : string)
| DataFrame_to_excel (df : list (list string)) (writer : string) (kw : kwdict)
| writer_save (writer : string)
| mkdtemp
| ZipFile_open (zipname : string)
| ZipFile_write (zipname filepath arcname : string)
| ZipFile_close (zipname : string).

Inductive io_exn : Set :=
| AttributeError.

Inductive result (A : Type) : Type :=
| Done (a : A)
| Failed (e : io_exn).
Arguments Done {A} a.
Arguments Failed {A} e.

Definition IO (A : Type) : Type := result A * list action.

Definition io_ret {A} (a : A) : IO A := (Done a, []).

Definition io_raise {A} (e : io_exn) : IO A := (Failed e, []).

Definition emit (a : action) : IO unit := (Done tt, [a]).

Definition io_bind {A B} (m : IO A) (k : A → IO B) : IO B :=
  match m with
  | (Done a, w) => let '(o, w') := k a in (o, w ++ w')
  | (Failed e, w) => (Failed e, w)
  end.

#[local] Instance IO_ret : MRet IO := @io_ret.
#[local] Instance IO_bind : MBind IO := λ A B k m, io_bind m k.

(** [for x in xs: body]. *)
Fixpoint io_for_each {A} (xs : list A) (body : A → IO unit) : IO unit :=
  match xs with
  | [] => io_ret tt
  | x :: xs' => body x ;; io_for_each xs' body
  end.

(** [str(x)] for a page or order number: an integer or [None]. *)
Definition py_str (x : option Z) : string :=
  match x with
  | None => "None"
  | Some z => NilZero.string_of_int (Z.to_int z)
  end.

(** [x in xs] on strings. *)
Definition str_in (x : string) (xs : list string) : bool :=
  existsb (String.eqb x) xs.

Section TableExport.

Context {coord : Type}.

(** [os.path.join(a, b)], [os.path.join(a)], [os.path.dirname],
    [os.path.basename], [os.path.splitext]. *)
Variable path_join : string → string → string.
Variable path_join1 : string → string.
Variable path_dirname : string → string.
Variable path_basename : string → string.
Variable path_splitext : string → string * string.

(** The directory [tempfile.mkdtemp()] creates and returns. *)
Variable tmpdir : string.

#[local] Abbreviation Table := (@Table coord).

(** ** Table.to_csv, to_json, to_excel, to_html *)

Definition to_csv (t : Table) (path : string) (kwargs : kwdict) : IO unit :=
  let kw := [("encoding", PStr "utf-8"); ("index", PBool false);
             ("quoting", PInt 1)]%string in
  let kw := dict_update kw kwargs in
  match df t with
  | None => io_raise AttributeError
  | Some d => emit (DataFrame_to_csv d path kw)
  end.

Definition to_json (t : Table) (path : string) (kwargs : kwdict) : IO unit :=
  let kw := [("orient", PStr "records")]%string in
  let kw := dict_update kw kwargs in
  match df t with
  | None => io_raise AttributeError
  | Some d =>
      let json_string := DataFrame_to_json d kw in
      emit (write_text path json_string)
  end.

(** ['page-{}-table-{}'.format(page, order)]. *)
Definition sheet_name (t : Table) : string :=
  join EmptyString ["page-"; py_str (page t); "-table-"; py_str (order t)]%string.

Definition to_excel (t : Table) (path : string) (kwargs : kwdict) : IO unit :=
  let kw := [("sheet_name", PStr (sheet_name t));
             ("encoding", PStr "utf-8")]%string in
  let kw := dict_update kw kwargs in
  emit (ExcelWriter path) ;;
  match df t with
  | None => io_raise AttributeError
  | Some d => emit (DataFrame_to_excel d path kw)
  end ;;
  emit (writer_save path).

Definition to_html (t : Table) (path : string) (kwargs : kwdict) : IO unit :=
  match df t with
  | None => io_raise AttributeError
  | Some d =>
      let html_string := DataFrame_to_html d kwargs in
      emit (write_text path html_string)
  end.

(** ** class TableList *)

Record TableList : Type := mkTableList { _tables : list Table }.

(** [len(self)] and the [n] property. *)
Definition TableList_len (tl : TableList) : Z := len (_tables tl).
Definition TableList_n (tl : TableList) : Z := len (_tables tl).

(** [self[idx]] for an integer [idx]; [None] stands for [IndexError]. *)
Definition getitem (tl : TableList) (idx : Z) : option Table :=
  i ← py_index (length (_tables tl)) idx; _tables tl !! i.

(** [getattr(table, 'to_{}'.format(f))]: the bound method, or
    [AttributeError] when the table has no such attribute. *)
Definition _format_func (table : Table) (f : string)
    : option (string → kwdict → IO unit) :=
  if String.eqb f "csv" then Some (to_csv table)
  else if String.eqb f "json" then Some (to_json table)
  else if String.eqb f "excel" then Some (to_excel table)
  else if String.eqb f "html" then Some (to_html table)
  else None.

(** ['{}-page-{}-table-{}{}'.format(root, table.page, table.order, ext)]. *)
Definition table_filename (root : string) (table : Table) (ext : string) : string :=
  join EmptyString
    [root; "-page-"; py_str (page table); "-table-"; py_str (order table); ext]%string.

Definition _write_file (tl : TableList) (f dirname root ext : string) : IO unit :=
  io_for_each (_tables tl) (λ table,
    let filename := path_join1 (table_filename root table ext) in
    let filepath := path_join dirname filename in
    match _format_func table f with
    | None => io_raise AttributeError
    | Some to_format => to_format filepath []
    end).

Definition _compress_dir (tl : TableList) (path dirname root ext : string)
    : IO unit :=
  let zipname := String.append (path_join (path_dirname path) root) ".zip" in
  emit (ZipFile_open zipname) ;;
  io_for_each (_tables tl) (λ table,
    let filename := path_join1 (table_filename root table ext) in
    let filepath := path_join dirname filename in
    emit (ZipFile_write zipname filepath (path_basename filepath))) ;;
  emit (ZipFile_close zipname).

Definition export (tl : TableList) (path f : string) (compress : bool) : IO unit :=
  let dirname := path_dirname path in
  let basename := path_basename path in
  let '(root, ext) := path_splitext basename in
  dirname ← (if compress then emit mkdtemp ;; mret tmpdir else mret dirname);
  if str_in f ["csv"; "json"; "html"]%string then
    _write_file tl f dirname root ext ;;
    if compress then _compress_dir tl path dirname root ext else mret tt
  else if String.eqb f "excel" then
    let filepath := path_join dirname basename in
    emit (ExcelWriter filepath) ;;
    io_for_each (_tables tl) (λ table,
      let sheet_name := sheet_name table in
      match df table with
      | None => io_raise AttributeError
      | Some d =>
          emit (DataFrame_to_excel d filepath
                  [("sheet_name", PStr sheet_name);
                   ("encoding", PStr "utf-8")]%string)
      end) ;;
    emit (writer_save filepath) ;;
    if compress then
      let zipname := String.append (path_join (path_dirname path) root) ".zip" in
      emit (ZipFile_open zipname) ;;
      emit (ZipFile_write zipname filepath (path_basename filepath)) ;;
      emit (ZipFile_close zipname)
    else mret tt
  else mret tt.

(** ** What a batch export is expected to write *)

(** The call that writes table [t] in format [f] to [filepath]. *)
Definition written (f filepath : string) (t : Table) : list action :=
  match df t with
  | None => []
  | Some d =>
      if String.eqb f "csv" then
        [DataFrame_to_csv d filepath
           [("encoding", PStr "utf-8"); ("index", PBool false);
            ("quoting", PInt 1)]%string]
      else if String.eqb f "json" then
        [write_text filepath
           (DataFrame_to_json d [("orient", PStr "records")]%string)]
      else
        [write_text filepath (DataFrame_to_html d [])]
  end.

(** The path of the file of table [t]. *)
Definition table_path (dirname root ext : string) (t : Table) : string :=
  path_join dirname (path_join1 (table_filename root t ext)).

(** The sheet written for table [t] in a batch workbook. *)
Definition sheet (filepath : string) (t : Table) : list action :=
  match df t with
  | None => []
  | Some d =>
      [DataFrame_to_excel d filepath
         [("sheet_name", PStr (sheet_name t)); ("encoding", PStr "utf-8")]%string]
  end.

End TableExport.

(** ** Coordinates as binary64 floats *)

(** [np.isclose(a, b, atol=atol)] on finite doubles:
    [abs(a - b) <= atol + rtol * abs(b)] with the default
    [rtol = 1e-05]. *)
Definition rtol : float := 0x1.4f8b588e368f1p-17%float.

Definition np_isclose (a b atol : float) : bool :=
  PrimFloat.leb (abs (a - b)) (atol + rtol * abs b)%float.

(** The grid of the worked scenario: two columns, two rows. *)
Definition scenario_cols : list (float * float) := [(0, 10); (10, 20)]%float.
Definition scenario_rows : list (float * float) := [(20, 10); (10, 0)]%float.
Definition scenario : Table := Table_init scenario_cols scenario_rows.

(** A single row of two cells, a grid of three rows and three columns,
    and three text assignments. *)
Definition wide : Table := Table_init [(0, 10); (10, 20)]%float [(10, 0)]%float.

Definition square3 : Table :=
  Table_init [(0, 10); (10, 20); (20, 30)]%float
             [(30, 20); (20, 10); (10, 0)]%float.

Definition scenario_ops : list (nat * nat * string) :=
  [(0, 0, " a"); (1, 1, "x"); (0, 0, "b ")]%nat%string.

(** Two rows and no column. *)
Definition no_cols : Table := Table_init [] [(20, 10); (10, 0)]%float.

(** ** Paths as [posixpath] computes them, for the instances *)

(** The longest prefix of [cs] without the character [a], and the rest. *)
Fixpoint span_not (a : ascii) (cs : list ascii) : list ascii * list ascii :=
  match cs with
  | [] => ([], [])
  | c :: cs' =>
      if Ascii.eqb c a then ([], cs)
      else let '(p, r) := span_not a cs' in (c :: p, r)
  end.

Fixpoint drop_all (a : ascii) (cs : list ascii) : list ascii :=
  match cs with
  | [] => []
  | c :: cs' => if Ascii.eqb c a then drop_all a cs' else cs
  end.

(** [p[i:]] and [p[:i]] for [i = p.rfind('/') + 1]. *)
Definition tail_chars (cs : list ascii) : list ascii :=
  rev (span_not "/" (rev cs)).1.
Definition head_chars (cs : list ascii) : list ascii :=
  rev (span_not "/" (rev cs)).2.

Definition posix_basename (p : string) : string :=
  string_of_list_ascii (tail_chars (list_ascii_of_string p)).

Definition posix_dirname (p : string) : string :=
  let head := head_chars (list_ascii_of_string p) in
  string_of_list_ascii
    (if forallb (Ascii.eqb "/") head then head
     else rev (drop_all "/" (rev head))).

Definition posix_join (a b : string) : string :=
  match b with
  | String "/" _ => b
  | _ =>
      match rev (list_ascii_of_string a) with
      | [] => b
      | c :: _ =>
          if Ascii.eqb c "/" then String.append a b
          else String.append a (String "/" b)
      end
  end.

Definition posix_splitext (p : string) : string * string :=
  let cs := list_ascii_of_string p in
  let '(ext_rev, rest_rev) := span_not "." (rev (tail_chars cs)) in
  match rest_rev with
  | [] => (p, EmptyString)
  | dot :: stem_rev =>
      if forallb (Ascii.eqb ".") stem_rev then (p, EmptyString)
      else (string_of_list_ascii (head_chars cs ++ rev stem_rev),
            string_of_list_ascii (dot :: rev ext_rev))
  end.

(** Two tables of page 1 whose results have been materialised, and one
    still without its [df]. *)
Definition page1_table1 : Table :=
  mkTable scenario_cols scenario_rows (cells scenario)
          (Some [["a"; "b"]; ["c"; "d"]]%string) (2, 2)%Z 100%Z 0%Z
          (Some 1%Z) (Some 1%Z).

Definition page1_table2 : Table :=
  mkTable scenario_cols scenario_rows (cells scenario)
          (Some [["e"; "f"]; ["g"; "h"]]%string) (2, 2)%Z 100%Z 0%Z
          (Some 2%Z) (Some 1%Z).

Definition csv_kw : kwdict :=
  [("encoding", PStr "utf-8"); ("index", PBool false); ("quoting", PInt 1)]%string.

(** [export] with the POSIX path functions and a given temporary
    directory. *)
Definition posix_export (tl : @TableList float) (path f : string)
    (compress : bool) : IO unit :=
  export posix_join id posix_dirname posix_basename posix_splitext
         "/tmp/tmpk3" tl path f compress.

(** * Properties *)

Section CamelotFacts.

Context {coord : Type}.
Variable isclose : coord → coord → coord → bool.

#[local] Existing Instance M_ret.
#[local] Existing Instance M_bind.

#[local] Abbreviation Cell := (@Cell coord).
#[local] Abbreviation grid := (list (list Cell)).
#[local] Abbreviation interval := (coord * coord)%type.
#[local] Abbreviation line := (coord * coord * coord * coord)%type.
#[local] Abbreviation Table := (@Table coord).
#[local] Abbreviation M := (@M coord).

(** ** Cell-wise relations are kept by every construct of the monad *)

Section Preservation.

Variable R : Cell → Cell → Prop.
Hypothesis R_refl : ∀ c, R c c.
Hypothesis R_trans : ∀ a b c, R a b → R b c → R a c.

Lemma grid_rel_refl (g : grid) : grid_rel R g g.
Proof.
  unfold grid_rel. induction g as [|row g IH]; constructor; [|exact IH].
  induction row; constructor; auto.
Qed.

Lemma row_rel_trans (a b c : list Cell) :
  Forall2 R a b → Forall2 R b c → Forall2 R a c.
Proof.
  intros Hab. revert c.
  induction Hab; intros c' Hbc; inversion Hbc; subst; constructor; eauto.
Qed.

Lemma grid_rel_trans (a b c : grid) :
  grid_rel R a b → grid_rel R b c → grid_rel R a c.
Proof.
  unfold grid_rel. intros Hab. revert c.
  induction Hab; intros c' Hbc; inversion Hbc; subst; constructor;
    eauto using row_rel_trans.
Qed.

Lemma preserves_ret {A} (a : A) : preserves R (ret a).
Proof. intros g. apply grid_rel_refl. Qed.

Lemma preserves_raise {A} (e : exn) : preserves R (@raise coord A e).
Proof. intros g. apply grid_rel_refl. Qed.

Lemma preserves_bind {A B} (m : M A) (k : A → M B) :
  preserves R m → (∀ a, preserves R (k a)) → preserves R (bind m k).
Proof.
  intros Hm Hk g. unfold bind. specialize (Hm g).
  destruct (m g) as [[a|e] g1]; simpl in *; [|exact Hm].
  eapply grid_rel_trans; [exact Hm|apply Hk].
Qed.

Lemma preserves_setattr (r c : Z) (f : Cell → Cell) :
  (∀ x, R x (f x)) → preserves R (setattr r c f).
Proof.
  intros Hf g. unfold setattr.
  destruct (py_index (length g) r) as [r'|]; [|apply grid_rel_refl].
  destruct (g !! r') as [row|]; [|apply grid_rel_refl].
  destruct (py_index (length row) c) as [c'|]; [|apply grid_rel_refl].
  simpl. apply Forall2_alter_r; [apply grid_rel_refl|].
  intros x y _ _ Hxy. apply Forall2_alter_r; [exact Hxy|].
  intros u w _ _ Huw. eapply R_trans; [exact Huw|apply Hf].
Qed.

Lemma preserves_for_cells (f : Cell → Cell) :
  (∀ x, R x (f x)) → preserves R (for_cells f).
Proof.
  intros Hf g. unfold for_cells, grid_rel. simpl.
  induction g as [|row g IH]; simpl; constructor; [|exact IH].
  induction row; simpl; constructor; auto.
Qed.

Lemma preserves_for_each {A} (xs : list A) (body : A → M unit) :
  (∀ x, preserves R (body x)) → preserves R (for_each xs body).
Proof.
  intros Hb. induction xs as [|x xs IH]; simpl.
  - apply preserves_ret.
  - apply preserves_bind; auto.
Qed.

Lemma preserves_while_lt (J K : Z) (body : Z → M unit) :
  (∀ x, preserves R (body x)) → preserves R (while_lt J K body).
Proof.
  intros Hb. unfold while_lt. generalize (Z.to_nat (K - J)) as n.
  intros n. revert J. induction n as [|n IH]; intros J; simpl.
  - apply preserves_ret.
  - apply preserves_bind; auto.
Qed.

Lemma preserves_for_lines step (ls : list line) (L : option Z) :
  (∀ l L, preserves R (step l L)) → preserves R (for_lines step ls L).
Proof.
  intros Hs. revert L. induction ls as [|l ls IH]; intros L; simpl.
  - apply preserves_ret.
  - apply preserves_bind; auto.
Qed.

Lemma preserves_vertical_step cols rows tol v L :
  (∀ x, R x (set_left true x)) → (∀ x, R x (set_right true x)) →
  preserves R (vertical_step isclose cols rows tol v L).
Proof.
  intros Hl Hr. unfold vertical_step.
  destruct (close_indices isclose (l3 v) tol rows) as [|J j];
    [apply preserves_ret|].
  repeat case_decide;
    destruct (close_indices isclose (l1 v) tol rows) as [|K k];
    repeat first
      [ apply preserves_bind; [|intros]
      | apply preserves_while_lt; intros
      | apply preserves_setattr
      | apply preserves_ret ]; auto.
Qed.

Lemma preserves_setattr_at_L L J (f : Cell → Cell) :
  (∀ x, R x (f x)) → preserves R (setattr_at_L L J f).
Proof.
  intros Hf. destruct L as [L|]; simpl.
  - by apply preserves_setattr.
  - apply preserves_raise.
Qed.

Lemma preserves_horizontal_step cols rows tol h L :
  (∀ x, R x (set_top true x)) → (∀ x, R x (set_bottom true x)) →
  preserves R (horizontal_step isclose cols rows tol h L).
Proof.
  intros Ht Hb. unfold horizontal_step.
  destruct (close_indices isclose (l0 h) tol cols) as [|J j];
    [apply preserves_ret|].
  repeat case_decide;
    destruct (close_indices isclose (l2 h) tol cols) as [|K k];
    repeat first
      [ apply preserves_bind; [|intros]
      | apply preserves_while_lt; intros
      | apply preserves_setattr_at_L
      | apply preserves_setattr
      | apply preserves_ret ]; auto.
Qed.

Lemma preserves_set_edges_body cols rows vertical horizontal tol :
  (∀ x, R x (set_left true x)) → (∀ x, R x (set_right true x)) →
  (∀ x, R x (set_top true x)) → (∀ x, R x (set_bottom true x)) →
  preserves R (set_edges_body isclose cols rows vertical horizontal tol).
Proof.
  intros Hl Hr Ht Hb. unfold set_edges_body.
  apply preserves_bind.
  - apply preserves_for_lines. intros. by apply preserves_vertical_step.
  - intros L. apply preserves_bind; [|intros; apply preserves_ret].
    apply preserves_for_lines. intros. by apply preserves_horizontal_step.
Qed.

Lemma preserves_set_border_body (cols rows : list interval) :
  (∀ x, R x (set_left true x)) → (∀ x, R x (set_right true x)) →
  (∀ x, R x (set_top true x)) → (∀ x, R x (set_bottom true x)) →
  preserves R (set_border_body cols rows).
Proof.
  intros Hl Hr Ht Hb. unfold set_border_body.
  apply preserves_bind; [|intros _];
    apply preserves_for_each; intros x;
    (apply preserves_bind; [|intros _]); by apply preserves_setattr.
Qed.

End Preservation.

(** ** From the cell-wise relation to rows, columns and cells *)

Lemma grid_rel_same_dims R (g g' : grid) : grid_rel R g g' → same_dims g g'.
Proof.
  unfold grid_rel, same_dims. induction 1 as [|row row' g g' Hrow _ IH]; simpl.
  - reflexivity.
  - f_equal; [symmetry; eapply Forall2_length; eauto | exact IH].
Qed.

Lemma grid_rel_cell_at R (g g' : grid) r c cell :
  grid_rel R g g' → cell_at g r c = Some cell →
  ∃ cell', cell_at g' r c = Some cell' ∧ R cell cell'.
Proof.
  unfold grid_rel, cell_at. intros Hg Hc.
  destruct (g !! r) as [row|] eqn:Hrow; simpl in Hc; [|discriminate].
  destruct (Forall2_lookup_l _ _ _ _ _ Hg Hrow) as (row' & Hrow' & Hrr).
  destruct (Forall2_lookup_l _ _ _ _ _ Hrr Hc) as (cell' & Hcell' & Hcc).
  exists cell'. rewrite Hrow'. simpl. auto.
Qed.

Lemma same_dims_length (g g' : grid) : same_dims g g' → length g' = length g.
Proof.
  unfold same_dims. intros H. apply (f_equal length) in H.
  by rewrite !length_fmap in H.
Qed.

Lemma flags_le_refl (c : Cell) : flags_le c c.
Proof. unfold flags_le. tauto. Qed.

Lemma flags_le_trans (a b c : Cell) : flags_le a b → flags_le b c → flags_le a c.
Proof. unfold flags_le. tauto. Qed.

Lemma bound_range (c : Cell) : 0 <= bound c <= 4.
Proof.
  unfold bound. destruct (top c), (bottom c), (left c), (right c); simpl; lia.
Qed.

Lemma call_invariant (m : M unit) (t : Table) :
  preserves flags_le m → table_invariant t (call m t).2.
Proof.
  intros Hm. unfold call. specialize (Hm (cells t)).
  destruct (m (cells t)) as [o g']. simpl in *.
  unfold table_invariant. simpl. repeat split.
  - eapply grid_rel_same_dims; eauto.
  - intros r c cell Hc. eapply grid_rel_cell_at; eauto.
  - apply bound_range.
  - apply bound_range.
Qed.

Lemma flags_le_set_left (c : Cell) : flags_le c (set_left true c).
Proof. unfold flags_le. simpl. tauto. Qed.
Lemma flags_le_set_right (c : Cell) : flags_le c (set_right true c).
Proof. unfold flags_le. simpl. tauto. Qed.
Lemma flags_le_set_top (c : Cell) : flags_le c (set_top true c).
Proof. unfold flags_le. simpl. tauto. Qed.
Lemma flags_le_set_bottom (c : Cell) : flags_le c (set_bottom true c).
Proof. unfold flags_le. simpl. tauto. Qed.

Lemma flags_le_all_edges (c : Cell) : flags_le c (all_edges c).
Proof. unfold flags_le. simpl. tauto. Qed.

Lemma span_cell_flags (c : Cell) :
  left (span_cell c) = left c ∧ right (span_cell c) = right c ∧
  top (span_cell c) = top c ∧ bottom (span_cell c) = bottom c.
Proof.
  destruct c as [? ? ? ? l r t b ? ? ?].
  destruct l, r, t, b; cbv; auto.
Qed.

Lemma flags_le_span_cell (c : Cell) : flags_le c (span_cell c).
Proof.
  destruct (span_cell_flags c) as (Hl & Hr & Ht & Hb).
  unfold flags_le. rewrite Hl, Hr, Ht, Hb. tauto.
Qed.

(** C7. Each of the four table operations keeps the invariant of the
    data model, whether it returns or raises: the column and row lists
    and the dimensions of the cell grid are unchanged, a boundary flag
    that was true before the call is true after it, and the bound count
    of every cell lies between 0 and 4. *)
Theorem operations_keep_invariant (t : Table) (vertical horizontal : list line)
    (joint_close_tol : coord) :
  table_invariant t (set_all_edges t).2 ∧
  table_invariant t (set_edges isclose t vertical horizontal joint_close_tol).2 ∧
  table_invariant t (set_border t).2 ∧
  table_invariant t (set_span t).2.
Proof.
  split; [|split; [|split]]; apply call_invariant.
  - apply preserves_for_cells. exact flags_le_all_edges.
  - apply preserves_set_edges_body.
    + exact flags_le_refl.
    + exact flags_le_trans.
    + exact flags_le_set_left.
    + exact flags_le_set_right.
    + exact flags_le_set_top.
    + exact flags_le_set_bottom.
  - apply preserves_set_border_body.
    + exact flags_le_refl.
    + exact flags_le_trans.
    + exact flags_le_set_left.
    + exact flags_le_set_right.
    + exact flags_le_set_top.
    + exact flags_le_set_bottom.
  - apply preserves_for_cells. exact flags_le_span_cell.
Qed.

(** ** Construction *)

Lemma cell_at_fmap (f : Cell → Cell) (g : grid) r c :
  cell_at ((λ row : list Cell, f <$> row) <$> g) r c = f <$> cell_at g r c.
Proof.
  unfold cell_at. rewrite list_lookup_fmap.
  destruct (g !! r) as [row|]; simpl; [|reflexivity].
  apply list_lookup_fmap.
Qed.

Lemma same_dims_fmap (f : Cell → Cell) (g : grid) : same_dims g ((λ row : list Cell, f <$> row) <$> g).
Proof.
  unfold same_dims. induction g as [|row g IH]; simpl; [reflexivity|].
  f_equal; [apply length_fmap | exact IH].
Qed.

Lemma table_init_has_shape (cols rows : list interval) :
  has_shape (length rows) (length cols) (cells (Table_init cols rows)).
Proof.
  split; simpl.
  - apply length_fmap.
  - apply Forall_fmap, Forall_forall. intros ri _. apply length_fmap.
Qed.

Lemma table_init_cell (cols rows : list interval) r c ri ci :
  rows !! r = Some ri → cols !! c = Some ci →
  cell_at (cells (Table_init cols rows)) r c =
    Some (Cell_init ci.1 ri.2 ci.2 ri.1).
Proof.
  intros Hr Hc. unfold cell_at. simpl.
  rewrite list_lookup_fmap, Hr. simpl.
  rewrite list_lookup_fmap, Hc. reflexivity.
Qed.

(** C4. A table built from [N] row intervals and [M] column intervals
    has a grid of exactly [N] rows of [M] cells; the cell in row [r],
    column [c] has the box (cols[c].left, rows[r].bottom, cols[c].right,
    rows[r].top), all six flags false and empty text. *)
Theorem table_init_grid (cols rows : list interval) :
  has_shape (length rows) (length cols) (cells (Table_init cols rows)) ∧
  ∀ r c ri ci, rows !! r = Some ri → cols !! c = Some ci →
    cell_at (cells (Table_init cols rows)) r c =
      Some (mkCell ci.1 ri.2 ci.2 ri.1
                   false false false false false false EmptyString).
Proof.
  split.
  - apply table_init_has_shape.
  - intros r c ri ci Hr Hc. by rewrite (table_init_cell _ _ _ _ _ _ Hr Hc).
Qed.

(** C10. Whatever the column and row lists, a new table has shape
    (0, 0), accuracy 0, whitespace 0 and neither an order nor a page
    (nor a materialised result). *)
Theorem table_init_report (cols rows : list interval) :
  shape (Table_init cols rows) = (0, 0) ∧
  accuracy (Table_init cols rows) = 0 ∧
  whitespace (Table_init cols rows) = 0 ∧
  order (Table_init cols rows) = None ∧
  page (Table_init cols rows) = None ∧
  df (Table_init cols rows) = None.
Proof. repeat split. Qed.

(** ** Span inference *)

Lemma set_span_returns (t : Table) :
  set_span t =
    (Returned tt,
     mkTable (cols t) (rows t) ((λ row : list Cell, span_cell <$> row) <$> cells t) (df t)
             (shape t) (accuracy t) (whitespace t) (order t) (page t)).
Proof. reflexivity. Qed.

Lemma span_cell_spans (c : Cell) :
  hspan (span_cell c) = hspan c || (classification c).1 ∧
  vspan (span_cell c) = vspan c || (classification c).2.
Proof.
  destruct c as [? ? ? ? l r t b hs vs ?].
  destruct l, r, t, b, hs, vs; cbv; split; reflexivity.
Qed.

Lemma span_cell_init (x1 y1 x2 y2 : coord) :
  span_cell (Cell_init x1 y1 x2 y2) = Cell_init x1 y1 x2 y2.
Proof. reflexivity. Qed.

(** C9. Span inference on a table straight from the constructor
    returns normally and changes nothing: every [hspan] and [vspan]
    stays false. *)
Theorem set_span_fresh (cols rows : list interval) :
  set_span (Table_init cols rows) = (Returned tt, Table_init cols rows) ∧
  ∀ r c cell, cell_at (cells (set_span (Table_init cols rows)).2) r c = Some cell →
    hspan cell = false ∧ vspan cell = false.
Proof.
  assert (Heq : set_span (Table_init cols rows) = (Returned tt, Table_init cols rows)).
  { rewrite set_span_returns. unfold Table_init. simpl. do 2 f_equal.
    rewrite <- list_fmap_compose. apply list_fmap_ext. intros _ ri _. simpl.
    rewrite <- list_fmap_compose. apply list_fmap_ext. intros _ ci _.
    apply span_cell_init. }
  split; [exact Heq|].
  rewrite Heq. simpl. intros r c cell. unfold cell_at.
  rewrite list_lookup_fmap.
  destruct (rows !! r) as [ri|]; simpl; [|discriminate].
  rewrite list_lookup_fmap.
  destruct (cols !! c) as [ci|]; simpl; [|discriminate].
  intros [= <-]. split; reflexivity.
Qed.

Lemma grid_rel_cell_at_r R (g g' : grid) r c cell' :
  grid_rel R g g' → cell_at g' r c = Some cell' →
  ∃ cell, cell_at g r c = Some cell ∧ R cell cell'.
Proof.
  unfold grid_rel, cell_at. intros Hg Hc.
  destruct (g' !! r) as [row'|] eqn:Hrow'; simpl in Hc; [|discriminate].
  destruct (Forall2_lookup_r _ _ _ _ _ Hg Hrow') as (row & Hrow & Hrr).
  destruct (Forall2_lookup_r _ _ _ _ _ Hrr Hc) as (cell & Hcell & Hcc).
  exists cell. rewrite Hrow. simpl. auto.
Qed.

Lemma keeps_span_ok_set_left (c : Cell) : keeps span_ok c (set_left true c).
Proof. unfold keeps, span_ok. simpl. tauto. Qed.
Lemma keeps_span_ok_set_right (c : Cell) : keeps span_ok c (set_right true c).
Proof. unfold keeps, span_ok. simpl. tauto. Qed.
Lemma keeps_span_ok_set_top (c : Cell) : keeps span_ok c (set_top true c).
Proof. unfold keeps, span_ok. simpl. tauto. Qed.
Lemma keeps_span_ok_set_bottom (c : Cell) : keeps span_ok c (set_bottom true c).
Proof. unfold keeps, span_ok. simpl. tauto. Qed.
Lemma keeps_span_ok_all_edges (c : Cell) : keeps span_ok c (all_edges c).
Proof. unfold keeps, span_ok. simpl. tauto. Qed.

Lemma keeps_span_ok_span_cell (c : Cell) : keeps span_ok c (span_cell c).
Proof.
  destruct c as [? ? ? ? l r t b hs vs ?].
  unfold keeps, span_ok.
  destruct l, r, t, b, hs, vs; cbv; intuition discriminate.
Qed.

Lemma keeps_refl P (c : Cell) : keeps P c c.
Proof. intros H. exact H. Qed.

Lemma keeps_trans P (a b c : Cell) : keeps P a b → keeps P b c → keeps P a c.
Proof. unfold keeps. auto. Qed.

Lemma call_keeps (P : Cell → Prop) (m : M unit) (t : Table) :
  preserves (keeps P) m →
  (∀ r c cell, cell_at (cells t) r c = Some cell → P cell) →
  ∀ r c cell, cell_at (cells (call m t).2) r c = Some cell → P cell.
Proof.
  intros Hm Ht r c cell'. unfold call. specialize (Hm (cells t)).
  destruct (m (cells t)) as [o g']. simpl in *. intros Hc.
  destruct (grid_rel_cell_at_r _ _ _ _ _ _ Hm Hc) as (cell & Hcell & Hk).
  apply Hk. eapply Ht. exact Hcell.
Qed.

Lemma table_init_cell_at (cols rows : list interval) r c cell :
  cell_at (cells (Table_init cols rows)) r c = Some cell →
  ∃ ri ci, cell = Cell_init ci.1 ri.2 ci.2 ri.1.
Proof.
  unfold cell_at. simpl. rewrite list_lookup_fmap.
  destruct (rows !! r) as [ri|]; simpl; [|discriminate].
  rewrite list_lookup_fmap.
  destruct (cols !! c) as [ci|]; simpl; [|discriminate].
  intros [= <-]. by exists ri, ci.
Qed.

(** Boundary assignment never touches a span flag: a table that has
    only been constructed and given boundaries has none set. *)
Lemma edged_unspanned (t : Table) : edged isclose t → unspanned (cells t).
Proof.
  assert (Hl : ∀ c : Cell, keeps no_span c (set_left true c)) by (intros c H; exact H).
  assert (Hr : ∀ c : Cell, keeps no_span c (set_right true c)) by (intros c H; exact H).
  assert (Ht : ∀ c : Cell, keeps no_span c (set_top true c)) by (intros c H; exact H).
  assert (Hb : ∀ c : Cell, keeps no_span c (set_bottom true c)) by (intros c H; exact H).
  induction 1 as [cols rows|t _ IH|t v h tol _ IH|t _ IH].
  - intros r c cell Hc.
    destruct (table_init_cell_at _ _ _ _ _ Hc) as (ri & ci & ->). by split.
  - refine (call_keeps no_span _ _ _ IH).
    apply preserves_for_cells. intros c H. exact H.
  - refine (call_keeps no_span _ _ _ IH).
    apply preserves_set_edges_body;
      [apply keeps_refl|apply keeps_trans|exact Hl|exact Hr|exact Ht|exact Hb].
  - refine (call_keeps no_span _ _ _ IH).
    apply preserves_set_border_body;
      [apply keeps_refl|apply keeps_trans|exact Hl|exact Hr|exact Ht|exact Hb].
Qed.

Lemma reachable_span_ok (t : Table) :
  reachable isclose t →
  ∀ r c cell, cell_at (cells t) r c = Some cell → span_ok cell.
Proof.
  induction 1 as [cols rows|t Ht IH|t v h tol Ht IH|t Ht IH|t Ht IH].
  - intros r c cell Hc.
    destruct (table_init_cell_at _ _ _ _ _ Hc) as (ri & ci & ->).
    unfold span_ok. simpl. intuition discriminate.
  - apply (call_keeps span_ok); [|exact IH].
    apply preserves_for_cells. exact keeps_span_ok_all_edges.
  - apply (call_keeps span_ok); [|exact IH].
    apply preserves_set_edges_body;
      [ apply keeps_refl | apply keeps_trans
      | exact keeps_span_ok_set_left | exact keeps_span_ok_set_right
      | exact keeps_span_ok_set_top | exact keeps_span_ok_set_bottom ].
  - apply (call_keeps span_ok); [|exact IH].
    apply preserves_set_border_body;
      [ apply keeps_refl | apply keeps_trans
      | exact keeps_span_ok_set_left | exact keeps_span_ok_set_right
      | exact keeps_span_ok_set_top | exact keeps_span_ok_set_bottom ].
  - apply (call_keeps span_ok); [|exact IH].
    apply preserves_for_cells. exact keeps_span_ok_span_cell.
Qed.

(** C3. Span inference returns normally on every table, keeps the grid
    dimensions and the boundary flags, and never clears a span flag: each
    cell's [hspan] and [vspan] after the call are its values before,
    ORed with what the classification of its boundary flags gives (four
    bounded sides, no span; three with left or right missing, [hspan];
    three with top or bottom missing, [vspan]; exactly left and right,
    [vspan]; exactly top and bottom, [hspan]; two orthogonal sides, one
    side or none, no span).  So on a table in which no span flag is set
    yet, every cell is afterwards classified exactly by its boundary
    flags.  And in no table that can be reached from the constructor
    through the four operations does a cell have both [hspan] and
    [vspan]. *)
Theorem set_span_classifies :
  (∀ t : Table,
     ∃ t', set_span t = (Returned tt, t') ∧
       same_dims (cells t) (cells t') ∧
       ∀ r c cell, cell_at (cells t) r c = Some cell →
         ∃ cell', cell_at (cells t') r c = Some cell' ∧
           left cell' = left cell ∧ right cell' = right cell ∧
           top cell' = top cell ∧ bottom cell' = bottom cell ∧
           hspan cell' = hspan cell || (classification cell).1 ∧
           vspan cell' = vspan cell || (classification cell).2) ∧
  (∀ t : Table, unspanned (cells t) →
     ∀ r c cell', cell_at (cells (set_span t).2) r c = Some cell' →
       classified cell') ∧
  (∀ t : Table, reachable isclose t →
     ∀ r c cell, cell_at (cells t) r c = Some cell →
       ¬ (hspan cell = true ∧ vspan cell = true)).
Proof.
  split; [|split].
  - intros t. eexists. split; [apply set_span_returns|]. simpl.
    split; [apply same_dims_fmap|].
    intros r c cell Hc. exists (span_cell cell).
    rewrite cell_at_fmap, Hc. split; [reflexivity|].
    destruct (span_cell_flags cell) as (Hl & Hr & Ht & Hb).
    destruct (span_cell_spans cell) as [Hh Hv].
    repeat (split; [assumption|]). assumption.
  - intros t Hun r c cell'. rewrite set_span_returns. simpl.
    rewrite cell_at_fmap.
    destruct (cell_at (cells t) r c) as [cell|] eqn:Hc; [|discriminate].
    simpl. intros [= <-].
    destruct (Hun r c cell Hc) as [Hh Hv].
    destruct (span_cell_flags cell) as (Hl & Hr & Ht & Hb).
    destruct (span_cell_spans cell) as [Hh' Hv'].
    unfold classified, classification at 1.
    rewrite Hl, Hr, Ht, Hb, Hh', Hv', Hh, Hv. simpl.
    fold (classification cell). by destruct (classification cell).
  - intros t Ht r c cell Hc.
    destruct (reachable_span_ok t Ht r c cell Hc) as (_ & _ & Hno). exact Hno.
Qed.

(** ** Unanchored segments *)

Lemma for_lines_skip step (before after : list line) (v : line) :
  (∀ L g, step v L g = (Returned L, g)) →
  ∀ L g, for_lines step (before ++ v :: after) L g =
         for_lines step (before ++ after) L g.
Proof.
  intros Hv. induction before as [|l before IH]; intros L g; simpl.
  - unfold mbind, M_bind, bind. by rewrite Hv.
  - unfold mbind, M_bind, bind.
    destruct (step l L g) as [[L'|e] g']; [apply IH | reflexivity].
Qed.

(** ** Assignments with subscripts in range *)

Lemma py_index_nat (n i : nat) : (i < n)%nat → py_index n (Z.of_nat i) = Some i.
Proof.
  intros Hi. unfold py_index.
  destruct (0 <=? Z.of_nat i) eqn:E1; [|lia].
  destruct (Z.of_nat i <? Z.of_nat n) eqn:E2; [|lia].
  simpl. by rewrite Nat2Z.id.
Qed.

Lemma has_shape_row N M (g : grid) r row :
  has_shape N M g → g !! r = Some row → length row = M.
Proof. intros [_ Hrows] Hr. exact (Forall_lookup_1 _ _ _ _ Hrows Hr). Qed.

Lemma cell_at_in_range N M (g : grid) r c :
  has_shape N M g → (r < N)%nat → (c < M)%nat → is_Some (cell_at g r c).
Proof.
  intros Hs Hr Hc. unfold cell_at.
  destruct (lookup_lt_is_Some_2 g r) as [row Hrow]; [destruct Hs; lia|].
  rewrite Hrow. simpl. apply lookup_lt_is_Some_2.
  rewrite (has_shape_row _ _ _ _ _ Hs Hrow). exact Hc.
Qed.

Lemma cell_at_Some_range N M (g : grid) r c cell :
  has_shape N M g → cell_at g r c = Some cell → (r < N)%nat ∧ (c < M)%nat.
Proof.
  intros Hs. unfold cell_at.
  destruct (g !! r) as [row|] eqn:Hrow; simpl; [|discriminate].
  intros Hc. split.
  - destruct Hs as [<- _]. eapply lookup_lt_Some; eauto.
  - rewrite <- (has_shape_row _ _ _ _ _ Hs Hrow). eapply lookup_lt_Some; eauto.
Qed.

Lemma has_shape_alter N M (g : grid) r c (f : Cell → Cell) :
  has_shape N M g → has_shape N M (alter (alter f c) r g).
Proof.
  intros [Hlen Hrows]. split.
  - by rewrite length_alter.
  - apply Forall_alter; [exact Hrows|]. intros row _ Hrow.
    by rewrite length_alter.
Qed.

Lemma cell_at_alter (g : grid) r c (f : Cell → Cell) r' c' :
  cell_at (alter (alter f c) r g) r' c' =
  (if decide (r = r' ∧ c = c') then f else id) <$> cell_at g r' c'.
Proof.
  unfold cell_at. rewrite list_lookup_alter.
  destruct (decide (r = r')) as [<-|Hr].
  - destruct (g !! r) as [row|]; simpl; [|reflexivity].
    rewrite list_lookup_alter.
    destruct (decide (c = c')) as [<-|Hc].
    + rewrite decide_True by done. reflexivity.
    + rewrite decide_False by tauto. by rewrite option_fmap_id.
  - rewrite decide_False by tauto. by rewrite option_fmap_id.
Qed.

Lemma acts_as_setattr nr nc (r0 c0 : nat) (f : Cell → Cell) :
  (r0 < nr)%nat → (c0 < nc)%nat →
  acts_as nr nc (setattr (Z.of_nat r0) (Z.of_nat c0) f)
    (λ r c, if decide (r0 = r ∧ c0 = c) then f else id).
Proof.
  intros Hr Hc g Hs. exists (alter (alter f c0) r0 g).
  split; [|split].
  - unfold setattr. destruct Hs as [Hlen Hrows].
    rewrite py_index_nat by lia.
    destruct (lookup_lt_is_Some_2 g r0) as [row Hrow]; [lia|].
    rewrite Hrow, (Forall_lookup_1 _ _ _ _ Hrows Hrow).
    by rewrite py_index_nat.
  - by apply has_shape_alter.
  - intros r c. apply cell_at_alter.
Qed.

Lemma acts_as_ret nr nc : acts_as nr nc (@ret coord unit tt) (λ _ _, id).
Proof.
  intros g Hs. exists g. repeat split; try apply Hs.
  intros r c. by rewrite option_fmap_id.
Qed.

Lemma acts_as_bind nr nc (m k : M unit) E1 E2 :
  acts_as nr nc m E1 → acts_as nr nc k E2 →
  acts_as nr nc (m ;; k) (λ r c, E2 r c ∘ E1 r c).
Proof.
  intros Hm Hk g Hs.
  destruct (Hm g Hs) as (g1 & Hrun1 & Hs1 & Hc1).
  destruct (Hk g1 Hs1) as (g2 & Hrun2 & Hs2 & Hc2).
  exists g2. split; [|split; [exact Hs2|]].
  - unfold mbind, M_bind, bind. by rewrite Hrun1.
  - intros r c. rewrite Hc2, Hc1. by destruct (cell_at g r c).
Qed.

Lemma acts_as_ext nr nc (m : M unit) E E' :
  acts_as nr nc m E →
  (∀ r c cell, (r < nr)%nat → (c < nc)%nat → E r c cell = E' r c cell) →
  acts_as nr nc m E'.
Proof.
  intros Hm HE g Hs. destruct (Hm g Hs) as (g' & Hrun & Hs' & Hc).
  exists g'. repeat split; try apply Hs'; try exact Hrun.
  intros r c. rewrite Hc.
  destruct (cell_at g r c) as [cell|] eqn:Hcell; simpl; [|reflexivity].
  destruct (cell_at_Some_range _ _ _ _ _ _ Hs Hcell). f_equal. by apply HE.
Qed.

(** A loop over [range(n)] whose iteration [i] only touches the cells
    selected by [sel r c = i]. *)
Lemma acts_as_for_range nr nc (sel : nat → nat → nat)
    (F : nat → nat → Cell → Cell) (body : Z → M unit) (n : nat) :
  (∀ i, (i < n)%nat →
     acts_as nr nc (body (Z.of_nat i))
       (λ r c, if decide (sel r c = i) then F r c else id)) →
  acts_as nr nc (for_each (range (Z.of_nat n)) body)
    (λ r c, if decide (sel r c < n)%nat then F r c else id).
Proof.
  intros Hbody.
  assert (Hgen : ∀ k s, (s + k = n)%nat →
    acts_as nr nc (for_each (seqZ (Z.of_nat s) (Z.of_nat k)) body)
      (λ r c, if decide (s ≤ sel r c < n)%nat then F r c else id)).
  { induction k as [|k IH]; intros s Hsk.
    - rewrite seqZ_nil by lia. simpl.
      eapply acts_as_ext; [apply acts_as_ret|].
      intros r c cell _ _. simpl. by rewrite decide_False by lia.
    - rewrite seqZ_cons by lia. simpl.
      replace (Z.succ (Z.of_nat s)) with (Z.of_nat (S s)) by lia.
      replace (Z.pred (Z.of_nat (S k))) with (Z.of_nat k) by lia.
      eapply acts_as_ext.
      + apply acts_as_bind; [apply (Hbody s); lia | apply (IH (S s)); lia].
      + intros r c cell _ _. simpl.
        destruct (decide (sel r c = s)) as [Hs|Hs].
        * rewrite decide_False by lia. rewrite decide_True by lia. reflexivity.
        * destruct (decide (S s ≤ sel r c < n)%nat).
          -- rewrite decide_True by lia. reflexivity.
          -- rewrite decide_False by lia. reflexivity. }
  eapply acts_as_ext; [apply (Hgen n 0%nat); lia|].
  intros r c cell _ _. simpl.
  destruct (decide (sel r c < n)%nat).
  - rewrite decide_True by lia. reflexivity.
  - rewrite decide_False by lia. reflexivity.
Qed.

(** ** The border *)

Lemma set_border_body_acts nr nc (cols rows : list interval) :
  length rows = nr → length cols = nc → (0 < nr)%nat → (0 < nc)%nat →
  acts_as nr nc (set_border_body cols rows) (border_cell nr nc).
Proof.
  intros Hrows Hcols Hnr Hnc. unfold set_border_body, len.
  rewrite Hrows, Hcols.
  replace (Z.of_nat nc - 1) with (Z.of_nat (nc - 1)) by lia.
  replace (Z.of_nat nr - 1) with (Z.of_nat (nr - 1)) by lia.
  change 0 with (Z.of_nat 0).
  eapply acts_as_ext.
  - apply acts_as_bind.
    + apply (acts_as_for_range nr nc (λ r _, r)
               (λ _ c, (if decide (c = (nc - 1)%nat) then set_right true else id) ∘
                       (if decide (c = 0%nat) then set_left true else id))).
      intros i Hi. eapply acts_as_ext.
      * apply acts_as_bind; apply acts_as_setattr; lia.
      * intros r c cell _ _. simpl.
        repeat case_decide; try reflexivity; exfalso; intuition lia.
    + apply (acts_as_for_range nr nc (λ _ c, c)
               (λ r _, (if decide (r = (nr - 1)%nat) then set_bottom true else id) ∘
                       (if decide (r = 0%nat) then set_top true else id))).
      intros i Hi. eapply acts_as_ext.
      * apply acts_as_bind; apply acts_as_setattr; lia.
      * intros r c cell _ _. simpl.
        repeat case_decide; try reflexivity; exfalso; intuition lia.
  - intros r c cell Hr Hc. unfold border_cell. simpl.
    repeat case_decide; try reflexivity; lia.
Qed.

Lemma border_cell_flags nr nc r c (cell : Cell) :
  left cell = false → right cell = false →
  top cell = false → bottom cell = false →
  (left (border_cell nr nc r c cell) = true ↔ c = 0%nat) ∧
  (right (border_cell nr nc r c cell) = true ↔ c = (nc - 1)%nat) ∧
  (top (border_cell nr nc r c cell) = true ↔ r = 0%nat) ∧
  (bottom (border_cell nr nc r c cell) = true ↔ r = (nr - 1)%nat).
Proof.
  intros Hl Hr Ht Hb. unfold border_cell.
  repeat case_decide; simpl; rewrite ?Hl, ?Hr, ?Ht, ?Hb;
    repeat split; intros; try done; try lia.
Qed.

(** Sums over a list, position by position. *)
Lemma sumZ_pointwise {A} (w : A → Z) (l : list A) (F : nat → Z) :
  (∀ i x, l !! i = Some x → w x = F i) →
  sumZ (w <$> l) = sumZ (F <$> seq 0 (length l)).
Proof.
  revert F. induction l as [|x l IH]; intros F HF; simpl; [reflexivity|].
  rewrite (HF 0%nat x eq_refl). f_equal.
  rewrite <- fmap_S_seq, <- list_fmap_compose. apply IH.
  intros i y Hy. apply (HF (S i)). exact Hy.
Qed.

Lemma sumZ_indicator (a s n : nat) :
  sumZ ((λ i, if decide (i = a) then 1 else 0) <$> seq s n) =
  if decide (s ≤ a < s + n)%nat then 1 else 0.
Proof.
  revert s. induction n as [|n IH]; intros s; simpl.
  - by rewrite decide_False by lia.
  - rewrite IH. repeat case_decide; lia.
Qed.

Lemma sumZ_two_indicators (f g : nat → Z) (k : Z) (l : list nat) :
  sumZ ((λ i, k + f i + g i) <$> l) =
  Z.of_nat (length l) * k + sumZ (f <$> l) + sumZ (g <$> l).
Proof.
  induction l as [|x l IH]; [simpl; lia|].
  rewrite !fmap_cons. unfold sumZ in *. simpl foldr. rewrite IH.
  simpl length. lia.
Qed.

Lemma sumZ_scaled (f g : nat → Z) (k d : Z) (l : list nat) :
  sumZ ((λ i, k * (f i + g i) + d) <$> l) =
  k * (sumZ (f <$> l) + sumZ (g <$> l)) + Z.of_nat (length l) * d.
Proof.
  induction l as [|x l IH]; [simpl; lia|].
  rewrite !fmap_cons. unfold sumZ in *. simpl foldr. rewrite IH.
  simpl length. lia.
Qed.

Lemma b2z_decide (b : bool) (P : Prop) `{!Decision P} :
  (b = true ↔ P) → Z.b2z b = if decide P then 1 else 0.
Proof. intros HP. destruct b; case_decide; simpl; intuition congruence. Qed.

Lemma total_bound_border N M (g : grid) :
  (0 < N)%nat → (0 < M)%nat → has_shape N M g →
  (∀ r c cell, cell_at g r c = Some cell →
     (left cell = true ↔ c = 0%nat) ∧ (right cell = true ↔ c = (M - 1)%nat) ∧
     (top cell = true ↔ r = 0%nat) ∧ (bottom cell = true ↔ r = (N - 1)%nat)) →
  total_bound g = 2 * Z.of_nat N + 2 * Z.of_nat M.
Proof.
  intros HN HM Hs Hflags. unfold total_bound.
  pose (T := λ r : nat, if decide (r = 0%nat) then 1 else 0).
  pose (B := λ r : nat, if decide (r = (N - 1)%nat) then 1 else 0).
  pose (L := λ c : nat, if decide (c = 0%nat) then 1 else 0).
  pose (R := λ c : nat, if decide (c = (M - 1)%nat) then 1 else 0).
  rewrite (sumZ_pointwise _ g (λ r, Z.of_nat M * (T r + B r) + 2)).
  - destruct Hs as [-> _].
    rewrite (sumZ_scaled T B). unfold T, B.
    rewrite !sumZ_indicator, length_seq.
    rewrite !decide_True by lia. lia.
  - intros r row Hrow.
    rewrite (sumZ_pointwise _ row (λ c, (T r + B r) + L c + R c)).
    + rewrite (has_shape_row _ _ _ _ _ Hs Hrow).
      rewrite (sumZ_two_indicators L R). unfold L, R.
      rewrite !sumZ_indicator, length_seq.
      rewrite !decide_True by lia. lia.
    + intros c cell Hcell.
      destruct (Hflags r c cell) as (Hl & Hr & Ht & Hb).
      { unfold cell_at. rewrite Hrow. exact Hcell. }
      unfold bound, T, B, L, R.
      rewrite (b2z_decide _ _ Hl), (b2z_decide _ _ Hr),
        (b2z_decide _ _ Ht), (b2z_decide _ _ Hb).
      reflexivity.
Qed.

(** C5. On a table of [N] > 1 rows and [M] > 1 columns with no boundary
    flag set, [set_border] returns normally and sets exactly 2N + 2M
    boundary flags: [left] exactly on column 0, [right] exactly on
    column M-1, [top] exactly on row 0 and [bottom] exactly on row N-1;
    a cell off the perimeter has no flag. *)
Theorem set_border_perimeter (t : Table) (N M : nat) :
  (1 < N)%nat → (1 < M)%nat →
  length (rows t) = N → length (cols t) = M →
  has_shape N M (cells t) → unbounded (cells t) →
  ∃ t', set_border t = (Returned tt, t') ∧
    has_shape N M (cells t') ∧
    total_bound (cells t') = 2 * Z.of_nat N + 2 * Z.of_nat M ∧
    (∀ r c cell', cell_at (cells t') r c = Some cell' →
       (left cell' = true ↔ c = 0%nat) ∧
       (right cell' = true ↔ c = (M - 1)%nat) ∧
       (top cell' = true ↔ r = 0%nat) ∧
       (bottom cell' = true ↔ r = (N - 1)%nat)) ∧
    (∀ r c cell', cell_at (cells t') r c = Some cell' →
       (0 < r < N - 1)%nat → (0 < c < M - 1)%nat → bound cell' = 0).
Proof.
  intros HN HM Hrows Hcols Hs Hun.
  destruct (set_border_body_acts N M (cols t) (rows t) Hrows Hcols
              ltac:(lia) ltac:(lia) (cells t) Hs) as (g' & Hrun & Hs' & Hc).
  assert (Hflags : ∀ r c cell', cell_at g' r c = Some cell' →
     (left cell' = true ↔ c = 0%nat) ∧ (right cell' = true ↔ c = (M - 1)%nat) ∧
     (top cell' = true ↔ r = 0%nat) ∧ (bottom cell' = true ↔ r = (N - 1)%nat)).
  { intros r c cell' Hcell'. rewrite Hc in Hcell'.
    destruct (cell_at (cells t) r c) as [cell|] eqn:Hcell; [|discriminate].
    injection Hcell' as <-.
    destruct (Hun r c cell Hcell) as (Hl & Hr & Ht & Hb).
    by apply border_cell_flags. }
  exists (mkTable (cols t) (rows t) g' (df t) (shape t) (accuracy t)
                  (whitespace t) (order t) (page t)).
  simpl. split; [|split; [exact Hs'|split; [|split; [exact Hflags|]]]].
  - unfold set_border, call. by rewrite Hrun.
  - apply (total_bound_border N M); [lia|lia|exact Hs'|exact Hflags].
  - intros r c cell' Hcell' Hr Hcc.
    destruct (Hflags r c cell' Hcell') as (Hl & Hrr & Ht & Hb).
    unfold bound.
    destruct (left cell'); [lia|]. destruct (right cell'); [lia|].
    destruct (top cell'); [lia|]. destruct (bottom cell'); [lia|].
    reflexivity.
Qed.

(** ** Text *)

Lemma append_nil_r (s : string) : String.append s EmptyString = s.
Proof. induction s as [|a s IH]; simpl; [reflexivity|by rewrite IH]. Qed.

Lemma append_assoc (a b c : string) :
  String.append (String.append a b) c = String.append a (String.append b c).
Proof. induction a as [|x a IH]; simpl; [reflexivity|by rewrite IH]. Qed.

Lemma concat_empty_cons (t : string) (ts : list string) :
  String.concat EmptyString (t :: ts) =
  String.append t (String.concat EmptyString ts).
Proof. destruct ts; simpl; [by rewrite append_nil_r|reflexivity]. Qed.

Lemma text_text_setter (cell : Cell) (t : string) :
  text (text_setter cell t) = String.append (text cell) t.
Proof. unfold text, text_setter, join. simpl. reflexivity. Qed.

Lemma text_foldl (cell : Cell) (ts : list string) :
  text (foldl text_setter cell ts) =
  String.append (text cell) (String.concat EmptyString ts).
Proof.
  revert cell. induction ts as [|t ts IH]; intros cell.
  - simpl. by rewrite append_nil_r.
  - simpl foldl. rewrite IH, text_text_setter, concat_empty_cons.
    apply append_assoc.
Qed.

Lemma assign_text_acts nr nc (ops : list (nat * nat * string)) :
  Forall (λ op, (op.1.1 < nr)%nat ∧ (op.1.2 < nc)%nat) ops →
  acts_as nr nc (for_each ops assign_text)
    (λ r c (cell : Cell), foldl text_setter cell (appended ops r c)).
Proof.
  induction 1 as [|[[r0 c0] s0] ops [Hr Hc] _ IH]; simpl.
  - eapply acts_as_ext; [apply acts_as_ret|]. reflexivity.
  - eapply acts_as_ext.
    + apply acts_as_bind; [apply acts_as_setattr; eassumption|exact IH].
    + intros r c cell _ _. simpl. unfold appended.
      rewrite filter_cons. simpl.
      destruct (decide (r0 = r ∧ c0 = c)) as [[-> ->]|Hne].
      * rewrite decide_True by reflexivity. reflexivity.
      * rewrite decide_False by (intros [= -> ->]; tauto). reflexivity.
Qed.

Lemma data_lookup (t : Table) (r c : nat) :
  data t !! r ≫= (λ row, row !! c) =
  (λ cell, strip (text cell)) <$> cell_at (cells t) r c.
Proof.
  unfold data, cell_at. rewrite list_lookup_fmap.
  destruct (cells t !! r) as [row|]; simpl; [|reflexivity].
  apply list_lookup_fmap.
Qed.

(** C8, as the code has it.  Reading a cell's [text] returns the
    strings assigned to it so far, concatenated in call order without a
    separator and *not* trimmed (for a new cell: exactly their
    concatenation).  The [data] of a table built from N rows and M
    columns, after any sequence of in-range text assignments, is an N by
    M array whose entry for a cell is that concatenation with the
    surrounding whitespace stripped. *)
Theorem text_accumulates :
  (∀ (cell : Cell) (ts : list string),
     text (foldl text_setter cell ts) =
     String.append (text cell) (String.concat EmptyString ts)) ∧
  (∀ (x1 y1 x2 y2 : coord) (ts : list string),
     text (foldl text_setter (Cell_init x1 y1 x2 y2) ts) =
     String.concat EmptyString ts) ∧
  (∀ (cols rows : list interval) (ops : list (nat * nat * string)),
     Forall (λ op, (op.1.1 < length rows)%nat ∧ (op.1.2 < length cols)%nat) ops →
     ∃ t', call (for_each ops assign_text) (Table_init cols rows) = (Returned tt, t') ∧
       length (data t') = length rows ∧
       Forall (λ row, length row = length cols) (data t') ∧
       ∀ r c, (r < length rows)%nat → (c < length cols)%nat →
         data t' !! r ≫= (λ row, row !! c) =
         Some (strip (String.concat EmptyString (appended ops r c)))).
Proof.
  split; [exact text_foldl|]. split.
  { intros. rewrite text_foldl. reflexivity. }
  intros cols rows ops Hops.
  pose proof (table_init_has_shape cols rows) as Hshape.
  destruct (assign_text_acts _ _ ops Hops _ Hshape) as (g' & Hrun & Hs' & Hc).
  exists (mkTable cols rows g' None (0, 0) 0 0 None None).
  split; [|split; [|split]].
  - unfold call. simpl. simpl in Hrun. by rewrite Hrun.
  - unfold data. simpl. rewrite length_fmap. apply Hs'.
  - unfold data. simpl. apply Forall_fmap.
    destruct Hs' as [_ Hrows]. eapply Forall_impl; [exact Hrows|].
    intros row Hrow. simpl. by rewrite length_fmap.
  - intros r c Hr Hcc. rewrite data_lookup. simpl. rewrite Hc.
    destruct (lookup_lt_is_Some_2 rows r Hr) as [ri Hri].
    destruct (lookup_lt_is_Some_2 cols c Hcc) as [ci Hci].
    rewrite (table_init_cell _ _ _ _ _ _ Hri Hci). simpl. f_equal. f_equal.
    rewrite text_foldl. reflexivity.
Qed.

(** ** The "only bottom edge" branch *)

(** With no binding for [L] yet, a horizontal segment whose y is close
    to no row but whose left end is anchored at a column before its right
    end raises at its first iteration, before any cell is touched. *)
Lemma bottom_branch_unbound (cols rows : list interval) (tol : coord)
    (h : line) (J : Z) (j : list Z) (g : grid) :
  close_indices isclose (l1 h) tol rows = [] →
  close_indices isclose (l0 h) tol cols = J :: j →
  J < match close_indices isclose (l2 h) tol cols with
      | K :: _ => K
      | [] => len cols
      end →
  horizontal_step isclose cols rows tol h None g = (Raised UnboundLocalError, g).
Proof.
  intros Hi Hj HJK. unfold horizontal_step. rewrite Hi, Hj.
  rewrite decide_False by discriminate. rewrite decide_True by reflexivity.
  destruct (close_indices isclose (l2 h) tol cols) as [|K k]; unfold while_lt.
  - destruct (Z.to_nat (len cols - J)) eqn:E; [lia|]. reflexivity.
  - destruct (Z.to_nat (K - J)) eqn:E; [lia|]. reflexivity.
Qed.


(** ** What the operations leave alone *)

Lemma same_but_flags_refl (c : Cell) : same_but_flags c c.
Proof. unfold same_but_flags. tauto. Qed.

Lemma same_but_flags_trans (a b c : Cell) :
  same_but_flags a b → same_but_flags b c → same_but_flags a c.
Proof. unfold same_but_flags. intuition congruence. Qed.

Lemma same_but_flags_set_left b (c : Cell) : same_but_flags c (set_left b c).
Proof. unfold same_but_flags. simpl. tauto. Qed.
Lemma same_but_flags_set_right b (c : Cell) : same_but_flags c (set_right b c).
Proof. unfold same_but_flags. simpl. tauto. Qed.
Lemma same_but_flags_set_top b (c : Cell) : same_but_flags c (set_top b c).
Proof. unfold same_but_flags. simpl. tauto. Qed.
Lemma same_but_flags_set_bottom b (c : Cell) : same_but_flags c (set_bottom b c).
Proof. unfold same_but_flags. simpl. tauto. Qed.
Lemma same_but_flags_all_edges (c : Cell) : same_but_flags c (all_edges c).
Proof. unfold same_but_flags. simpl. tauto. Qed.

Lemma same_but_spans_span_cell (c : Cell) : same_but_spans c (span_cell c).
Proof.
  destruct c as [? ? ? ? l r t b hs vs ?]. unfold same_but_spans.
  destruct l, r, t, b; cbv; tauto.
Qed.

Lemma call_cellwise R (m : M unit) (t : Table) :
  preserves R m → cellwise R t (call m t).2.
Proof.
  intros Hm. unfold call. specialize (Hm (cells t)).
  destruct (m (cells t)) as [o g']. simpl in *.
  unfold cellwise. simpl. repeat (split; [reflexivity|]). split.
  - eapply grid_rel_same_dims; eauto.
  - intros r c cell Hc. eapply grid_rel_cell_at; eauto.
Qed.

Lemma preserves_boundary_ops (R : Cell → Cell → Prop) :
  (∀ c, R c c) → (∀ a b c, R a b → R b c → R a c) →
  (∀ c, R c (set_left true c)) → (∀ c, R c (set_right true c)) →
  (∀ c, R c (set_top true c)) → (∀ c, R c (set_bottom true c)) →
  (∀ c, R c (all_edges c)) →
  ∀ cols rows vertical horizontal tol,
    preserves R (for_cells all_edges) ∧
    preserves R (set_edges_body isclose cols rows vertical horizontal tol) ∧
    preserves R (set_border_body cols rows).
Proof.
  intros Hrefl Htrans Hl Hr Ht Hb Ha cols rows vertical horizontal tol.
  split; [|split].
  - by apply preserves_for_cells.
  - by apply preserves_set_edges_body.
  - by apply preserves_set_border_body.
Qed.

Lemma preserves_same_but_flags cols rows vertical horizontal tol :
  preserves (@same_but_flags coord) (for_cells all_edges) ∧
  preserves (@same_but_flags coord)
    (set_edges_body isclose cols rows vertical horizontal tol) ∧
  preserves (@same_but_flags coord) (set_border_body cols rows).
Proof.
  apply preserves_boundary_ops.
  - exact same_but_flags_refl.
  - exact same_but_flags_trans.
  - exact (same_but_flags_set_left true).
  - exact (same_but_flags_set_right true).
  - exact (same_but_flags_set_top true).
  - exact (same_but_flags_set_bottom true).
  - exact same_but_flags_all_edges.
Qed.

(** X1. Boundary assignment touches boundary flags only.  Whether it
    returns or raises, each of [set_all_edges], [set_edges] and
    [set_border] leaves the table's other attributes, the grid
    dimensions and, in every cell, the box, the text and both span flags
    as they were. *)
Theorem boundary_assignment_frame (t : Table) (vertical horizontal : list line)
    (tol : coord) :
  cellwise same_but_flags t (set_all_edges t).2 ∧
  cellwise same_but_flags t (set_edges isclose t vertical horizontal tol).2 ∧
  cellwise same_but_flags t (set_border t).2.
Proof.
  destruct (preserves_same_but_flags (cols t) (rows t) vertical horizontal tol)
    as (Ha & He & Hb).
  split; [|split]; by apply call_cellwise.
Qed.

(** X2. Span inference returns normally on every table, never clears a
    span flag, and changes nothing else: boxes, boundary flags, text,
    grid dimensions and the table's other attributes are as before. *)
Theorem set_span_frame (t : Table) :
  ∃ t', set_span t = (Returned tt, t') ∧ cellwise same_but_spans t t'.
Proof.
  eexists. split; [apply set_span_returns|].
  change (cellwise same_but_spans t (call (for_cells span_cell) t).2).
  apply call_cellwise. intros g. unfold for_cells, grid_rel. simpl.
  induction g as [|row g IH]; simpl; constructor; [|exact IH].
  induction row; simpl; constructor; auto using same_but_spans_span_cell.
Qed.

Lemma data_grid_rel R (t t' : Table) :
  (∀ c c', R c c' → _text c' = _text c) →
  grid_rel R (cells t) (cells t') → data t' = data t.
Proof.
  intros HR Hg. unfold data. unfold grid_rel in Hg.
  induction Hg as [|row row' g g' Hrow _ IH]; simpl; [reflexivity|].
  f_equal; [|exact IH].
  induction Hrow as [|c c' row row' Hc _ IHrow]; simpl; [reflexivity|].
  f_equal; [|exact IHrow]. unfold text. by rewrite (HR _ _ Hc).
Qed.

Lemma call_data R (m : M unit) (t : Table) :
  (∀ c c', R c c' → _text c' = _text c) →
  preserves R m → data (call m t).2 = data t.
Proof.
  intros HR Hm. apply (data_grid_rel R); [exact HR|].
  unfold call. specialize (Hm (cells t)).
  by destruct (m (cells t)) as [o g'].
Qed.

(** X3. No table operation changes what [data] returns: boundary
    assignment and span inference, returning or raising, leave the array
    of stripped cell texts as it was. *)
Theorem data_unchanged (t : Table) (vertical horizontal : list line)
    (tol : coord) :
  data (set_all_edges t).2 = data t ∧
  data (set_edges isclose t vertical horizontal tol).2 = data t ∧
  data (set_border t).2 = data t ∧
  data (set_span t).2 = data t.
Proof.
  destruct (preserves_same_but_flags (cols t) (rows t) vertical horizontal tol)
    as (Ha & He & Hb).
  assert (Hf : ∀ c c' : Cell, same_but_flags c c' → _text c' = _text c).
  { unfold same_but_flags. tauto. }
  split; [|split; [|split]].
  - by apply (call_data same_but_flags).
  - by apply (call_data same_but_flags).
  - by apply (call_data same_but_flags).
  - apply (call_data same_but_spans).
    + unfold same_but_spans. tauto.
    + intros g. unfold for_cells, grid_rel. simpl.
      induction g as [|row g IH]; simpl; constructor; [|exact IH].
      induction row; simpl; constructor; auto using same_but_spans_span_cell.
Qed.


(** ** Fully ruled tables, and repeating an operation *)

Lemma fmap_grid_rel_eq R (f : Cell → Cell) (g g' : grid) :
  (∀ c c', R c c' → f c' = f c) → grid_rel R g g' →
  (λ row : list Cell, f <$> row) <$> g' = (λ row : list Cell, f <$> row) <$> g.
Proof.
  intros HR Hg. unfold grid_rel in Hg.
  induction Hg as [|row row' g g' Hrow _ IH]; simpl; [reflexivity|].
  f_equal; [|exact IH].
  induction Hrow as [|c c' row row' Hc _ IHrow]; simpl; [reflexivity|].
  f_equal; [by apply HR|exact IHrow].
Qed.

Lemma all_edges_absorbs (c c' : Cell) :
  same_but_flags c c' → all_edges c' = all_edges c.
Proof.
  destruct c, c'. unfold same_but_flags, all_edges. simpl.
  intros (-> & -> & -> & -> & -> & -> & ->). reflexivity.
Qed.

Lemma span_cell_all_edges (c : Cell) : span_cell (all_edges c) = all_edges c.
Proof. reflexivity. Qed.

Lemma span_cell_idempotent (c : Cell) : span_cell (span_cell c) = span_cell c.
Proof.
  destruct c as [? ? ? ? l r t b hs vs ?].
  destruct l, r, t, b; reflexivity.
Qed.

Lemma call_all_edges_absorbs (m : M unit) (t : Table) :
  preserves same_but_flags m → set_all_edges (call m t).2 = set_all_edges t.
Proof.
  intros Hm. unfold set_all_edges, call at 1. unfold call. unfold for_cells.
  specialize (Hm (cells t)). destruct (m (cells t)) as [o g']. simpl in *.
  do 2 f_equal. eapply fmap_grid_rel_eq; [|exact Hm]. exact all_edges_absorbs.
Qed.

(** X4. [set_all_edges] returns normally on every table and leaves every
    cell with all four boundary flags set, bound count 4; span inference
    on the result returns it unchanged. *)
Theorem set_all_edges_full (t : Table) :
  ∃ t', set_all_edges t = (Returned tt, t') ∧
    (∀ r c cell', cell_at (cells t') r c = Some cell' →
       left cell' = true ∧ right cell' = true ∧
       top cell' = true ∧ bottom cell' = true ∧ bound cell' = 4) ∧
    (∀ r c cell', cell_at (cells t') r c = Some cell' →
       ∃ cell, cell_at (cells t) r c = Some cell ∧
         hspan cell' = hspan cell ∧ vspan cell' = vspan cell) ∧
    set_span t' = (Returned tt, t').
Proof.
  eexists. split; [reflexivity|]. simpl. split; [|split].
  - intros r c cell'. rewrite cell_at_fmap.
    destruct (cell_at (cells t) r c) as [cell|]; simpl; [|discriminate].
    intros [= <-]. repeat split.
  - intros r c cell'. rewrite cell_at_fmap.
    destruct (cell_at (cells t) r c) as [cell|]; simpl; [|discriminate].
    intros [= <-]. exists cell. repeat split.
  - rewrite set_span_returns. simpl. do 2 f_equal.
    rewrite <- list_fmap_compose. apply list_fmap_ext. intros _ row _. simpl.
    rewrite <- list_fmap_compose. apply list_fmap_ext. intros _ c _.
    apply span_cell_all_edges.
Qed.

(** X5. [set_all_edges] makes earlier boundary assignment irrelevant:
    run after [set_edges], [set_border] or itself, whatever their
    outcome, it gives the table it gives when run alone. *)
Theorem set_all_edges_absorbs (t : Table) (vertical horizontal : list line)
    (tol : coord) :
  set_all_edges (set_edges isclose t vertical horizontal tol).2 = set_all_edges t ∧
  set_all_edges (set_border t).2 = set_all_edges t ∧
  set_all_edges (set_all_edges t).2 = set_all_edges t.
Proof.
  destruct (preserves_same_but_flags (cols t) (rows t) vertical horizontal tol)
    as (Ha & He & Hb).
  split; [|split]; by apply call_all_edges_absorbs.
Qed.

(** X6. Span inference is idempotent: a second [set_span] right after
    the first changes nothing. *)
Theorem set_span_idempotent (t : Table) :
  set_span (set_span t).2 = set_span t.
Proof.
  rewrite !set_span_returns. simpl. do 2 f_equal.
  rewrite <- list_fmap_compose. apply list_fmap_ext. intros _ row _. simpl.
  rewrite <- list_fmap_compose. apply list_fmap_ext. intros _ c _.
  apply span_cell_idempotent.
Qed.


(** ** Matching a coordinate against the grid *)

Lemma close_from_spec (n : Z) (a tol : coord) (ts : list interval) (x : Z) :
  x ∈ close_from isclose n a tol ts ↔
  ∃ i t, x = n + Z.of_nat i ∧ ts !! i = Some t ∧ isclose a t.1 tol = true.
Proof.
  revert n. induction ts as [|t0 ts IH]; intros n; simpl.
  - split; [by intros ?%elem_of_nil|]. by intros (i & t & _ & ? & _).
  - assert (Hrest : x ∈ close_from isclose (n + 1) a tol ts ↔
      ∃ i t, x = n + Z.of_nat (S i) ∧ ts !! i = Some t ∧ isclose a t.1 tol = true).
    { rewrite IH. split; intros (i & t & -> & Ht & Hc); exists i, t;
        (split; [lia|done]). }
    destruct (isclose a t0.1 tol) eqn:Hc0.
    + rewrite elem_of_cons, Hrest. split.
      * intros [->|(i & t & -> & Ht & Hc)].
        -- exists 0%nat, t0. split; [lia|done].
        -- exists (S i), t. done.
      * intros ([|i] & t & -> & Ht & Hc).
        -- left. lia.
        -- right. exists i, t. done.
    + rewrite Hrest. split.
      * intros (i & t & -> & Ht & Hc). exists (S i), t. done.
      * intros ([|i] & t & -> & Ht & Hc).
        -- simpl in Ht. injection Ht as <-. congruence.
        -- exists i, t. done.
Qed.

Lemma close_from_lower (n : Z) (a tol : coord) (ts : list interval) :
  Forall (λ x, n <= x) (close_from isclose n a tol ts).
Proof.
  apply Forall_forall. intros x Hx.
  apply close_from_spec in Hx as (i & t & -> & _). lia.
Qed.

Lemma close_from_head (n : Z) (a tol : coord) (ts : list interval) J rest :
  close_from isclose n a tol ts = J :: rest →
  ∃ j t, J = n + Z.of_nat j ∧ ts !! j = Some t ∧ isclose a t.1 tol = true ∧
    ∀ i t', (i < j)%nat → ts !! i = Some t' → isclose a t'.1 tol = false.
Proof.
  revert n. induction ts as [|t0 ts IH]; intros n; simpl; [discriminate|].
  destruct (isclose a t0.1 tol) eqn:Hc0.
  - intros [= <- _]. exists 0%nat, t0. repeat split; [lia|done|]. lia.
  - intros Hrest. destruct (IH _ Hrest) as (j & t & -> & Ht & Hc & Hmin).
    exists (S j), t. repeat split; [lia|done|done|].
    intros [|i] t' Hi Ht'.
    + simpl in Ht'. by injection Ht' as <-.
    + apply (Hmin i); [lia|done].
Qed.

(** X7. What the three index lists of [set_edges] hold.  An index is in
    the list exactly when the interval at that position starts within
    tolerance of the coordinate; the list is empty exactly when no
    interval does; and its head, the only element the algorithm uses, is
    the smallest such position. *)
Theorem close_indices_first_match (a tol : coord) (ts : list interval) :
  (∀ x, x ∈ close_indices isclose a tol ts ↔
     ∃ i t, x = Z.of_nat i ∧ ts !! i = Some t ∧ isclose a t.1 tol = true) ∧
  (close_indices isclose a tol ts = [] ↔
     ∀ i t, ts !! i = Some t → isclose a t.1 tol = false) ∧
  (∀ J rest, close_indices isclose a tol ts = J :: rest →
     ∃ j t, J = Z.of_nat j ∧ ts !! j = Some t ∧ isclose a t.1 tol = true ∧
       ∀ i t', (i < j)%nat → ts !! i = Some t' → isclose a t'.1 tol = false).
Proof.
  unfold close_indices. split; [|split].
  - intros x. rewrite close_from_spec. by setoid_rewrite Z.add_0_l.
  - split.
    + intros Hnil i t Ht. destruct (isclose a t.1 tol) eqn:Hc; [|done].
      assert (Hin : Z.of_nat i ∈ close_from isclose 0 a tol ts).
      { apply close_from_spec. exists i, t. done. }
      rewrite Hnil in Hin. by apply elem_of_nil in Hin.
    + intros Hall. destruct (close_from isclose 0 a tol ts) as [|J rest] eqn:E;
        [done|].
      destruct (close_from_head _ _ _ _ _ _ E) as (j & t & _ & Ht & Hc & _).
      rewrite (Hall j t Ht) in Hc. discriminate.
  - intros J rest E.
    destruct (close_from_head _ _ _ _ _ _ E) as (j & t & -> & Ht & Hc & Hmin).
    exists j, t. done.
Qed.


(** ** Drawing edges *)

Lemma py_index_lt (n : nat) (i : Z) (k : nat) :
  py_index n i = Some k → (k < n)%nat.
Proof.
  unfold py_index.
  destruct (0 <=? i) eqn:E1, (i <? Z.of_nat n) eqn:E2; simpl;
    try (intros [= <-]; lia);
    destruct (- Z.of_nat n <=? i) eqn:E3, (i <? 0) eqn:E4; simpl;
    try discriminate; intros [= <-]; lia.
Qed.

Lemma py_index_pred (n l : nat) :
  (l < n)%nat → py_index n (Z.of_nat l - 1) = Some (wrap_pred n l).
Proof.
  intros Hl. unfold wrap_pred. destruct (decide (l = 0%nat)) as [->|Hne].
  - unfold py_index. change (Z.of_nat 0 - 1) with (-1).
    destruct (Z.leb_spec 0 (-1)); [lia|]. cbn [andb].
    destruct (Z.leb_spec (- Z.of_nat n) (-1)); [|lia].
    destruct (Z.ltb_spec (-1) 0); [|lia]. cbn [andb]. f_equal. lia.
  - replace (Z.of_nat l - 1) with (Z.of_nat (l - 1)) by lia.
    apply py_index_nat. lia.
Qed.

Lemma py_index_last (n : nat) :
  (0 < n)%nat → py_index n (Z.of_nat n - 1) = Some (n - 1)%nat.
Proof.
  intros Hn. replace (Z.of_nat n - 1) with (Z.of_nat (n - 1)) by lia.
  apply py_index_nat. lia.
Qed.

Lemma acts_as_setattr_py nr nc (r c : Z) (r0 c0 : nat) (f : Cell → Cell) :
  py_index nr r = Some r0 → py_index nc c = Some c0 →
  acts_as nr nc (setattr r c f)
    (λ r' c', if decide (r0 = r' ∧ c0 = c') then f else id).
Proof.
  intros Hr Hc g Hs. exists (alter (alter f c0) r0 g).
  split; [|split].
  - unfold setattr. pose proof (py_index_lt _ _ _ Hr) as Hlt.
    destruct Hs as [Hlen Hrows]. rewrite Hlen, Hr.
    destruct (lookup_lt_is_Some_2 g r0) as [row Hrow]; [lia|].
    rewrite Hrow, (Forall_lookup_1 _ _ _ _ Hrows Hrow), Hc. reflexivity.
  - by apply has_shape_alter.
  - intros r' c'. apply cell_at_alter.
Qed.

Lemma mark_no_edges (c : Cell) : mark no_edges c = c.
Proof. destruct c. unfold mark. simpl. by rewrite !orb_false_r. Qed.

Lemma mark_mark (a b : edges) (c : Cell) :
  mark b (mark a c) = mark (join_edges a b) c.
Proof. unfold mark, join_edges. simpl. by rewrite !orb_assoc. Qed.

Lemma join_edges_comm (a b : edges) : join_edges a b = join_edges b a.
Proof.
  unfold join_edges.
  by rewrite (orb_comm (e_left a)), (orb_comm (e_right a)),
    (orb_comm (e_top a)), (orb_comm (e_bottom a)).
Qed.

Lemma join_edges_assoc (a b c : edges) :
  join_edges a (join_edges b c) = join_edges (join_edges a b) c.
Proof. unfold join_edges. simpl. by rewrite !orb_assoc. Qed.

Lemma join_edges_idemp (a : edges) : join_edges a a = a.
Proof. destruct a. unfold join_edges. simpl. by rewrite !orb_diag. Qed.

Lemma join_no_edges_r (a : edges) : join_edges a no_edges = a.
Proof. destruct a. unfold join_edges. simpl. by rewrite !orb_false_r. Qed.

Lemma join_no_edges_l (a : edges) : join_edges no_edges a = a.
Proof. by destruct a. Qed.

Lemma draws_of_acts_as nr nc (m : M unit) E (W : nat → nat → edges) :
  acts_as nr nc m E →
  (∀ r c cell, (r < nr)%nat → (c < nc)%nat → E r c cell = mark (W r c) cell) →
  draws nr nc m W.
Proof.
  intros Hm HE g Hs.
  destruct (acts_as_ext _ _ _ _ _ Hm HE g Hs) as (g' & Hrun & Hs' & Hc).
  by exists tt, g'.
Qed.

Lemma draws_ret {A} nr nc (a : A) : draws nr nc (@ret coord A a) (λ _ _, no_edges).
Proof.
  intros g Hs. exists a, g. repeat split; try apply Hs.
  intros r c. destruct (cell_at g r c); simpl; [|done]. by rewrite mark_no_edges.
Qed.

Lemma draws_bind {A B} nr nc (m : M A) (k : A → M B) W1 W2 :
  draws nr nc m W1 → (∀ a, draws nr nc (k a) W2) →
  draws nr nc (m ≫= k) (λ r c, join_edges (W1 r c) (W2 r c)).
Proof.
  intros Hm Hk g Hs.
  destruct (Hm g Hs) as (a & g1 & Hrun1 & Hs1 & Hc1).
  destruct (Hk a g1 Hs1) as (b & g2 & Hrun2 & Hs2 & Hc2).
  exists b, g2. split; [|split; [exact Hs2|]].
  - unfold mbind, M_bind, bind. by rewrite Hrun1.
  - intros r c. rewrite Hc2, Hc1.
    destruct (cell_at g r c); simpl; [|done]. by rewrite mark_mark.
Qed.

Lemma draws_ext {A} nr nc (m : M A) W W' :
  draws nr nc m W →
  (∀ r c, (r < nr)%nat → (c < nc)%nat → W r c = W' r c) →
  draws nr nc m W'.
Proof.
  intros Hm HW g Hs. destruct (Hm g Hs) as (a & g' & Hrun & Hs' & Hc).
  exists a, g'. repeat split; try apply Hs'; try exact Hrun.
  intros r c. rewrite Hc.
  destruct (cell_at g r c) as [cell|] eqn:Hcell; simpl; [|reflexivity].
  destruct (cell_at_Some_range _ _ _ _ _ _ Hs Hcell). by rewrite HW.
Qed.

Lemma draws_for_lines nr nc step (W : line → nat → nat → edges)
    (ls : list line) (L : option Z) :
  (∀ l L, draws nr nc (step l L) (W l)) →
  draws nr nc (for_lines step ls L) (union_edges (W <$> ls)).
Proof.
  intros Hstep. revert L. induction ls as [|l ls IH]; intros L; simpl.
  - apply draws_ret.
  - apply draws_bind; [apply Hstep|]. intros L'. apply IH.
Qed.


Lemma set_left_mark (c : Cell) : set_left true c = mark (mkEdges true false false false) c.
Proof. destruct c. unfold mark, set_left. simpl. by rewrite !orb_false_r, orb_true_r. Qed.
Lemma set_right_mark (c : Cell) : set_right true c = mark (mkEdges false true false false) c.
Proof. destruct c. unfold mark, set_right. simpl. by rewrite !orb_false_r, orb_true_r. Qed.
Lemma set_top_mark (c : Cell) : set_top true c = mark (mkEdges false false true false) c.
Proof. destruct c. unfold mark, set_top. simpl. by rewrite !orb_false_r, orb_true_r. Qed.
Lemma set_bottom_mark (c : Cell) : set_bottom true c = mark (mkEdges false false false true) c.
Proof. destruct c. unfold mark, set_bottom. simpl. by rewrite !orb_false_r, orb_true_r. Qed.

Lemma draws_setattr nr nc (r c : Z) (r0 c0 : nat) (f : Cell → Cell) (e : edges) :
  py_index nr r = Some r0 → py_index nc c = Some c0 →
  (∀ cell, f cell = mark e cell) →
  draws nr nc (setattr r c f)
    (λ r' c', if bool_decide (r' = r0 ∧ c' = c0) then e else no_edges).
Proof.
  intros Hr Hc Hf.
  eapply draws_of_acts_as; [by apply (acts_as_setattr_py _ _ r c r0 c0)|].
  intros r' c' cell _ _. cbn beta.
  repeat (case_bool_decide || case_decide);
    try (exfalso; intuition lia).
  - apply Hf.
  - by rewrite mark_no_edges.
Qed.

(** Equalities between sets of edges given by position tests. *)
Ltac edges_eq :=
  cbn beta; repeat (case_bool_decide || case_decide);
  rewrite ?join_no_edges_r, ?join_no_edges_l;
  first [ reflexivity | exfalso; lia | exfalso; intuition lia
        | unfold join_edges, no_edges; simpl; reflexivity ].

Lemma draws_while nr nc (sel : nat → nat → nat) (e : nat → nat → edges)
    (body : Z → M unit) (J K : nat) :
  (∀ i, (J ≤ i < K)%nat →
     draws nr nc (body (Z.of_nat i))
       (λ r c, if bool_decide (sel r c = i) then e r c else no_edges)) →
  draws nr nc (while_lt (Z.of_nat J) (Z.of_nat K) body)
    (λ r c, if bool_decide (J ≤ sel r c < K)%nat then e r c else no_edges).
Proof.
  intros Hbody. unfold while_lt.
  replace (Z.to_nat (Z.of_nat K - Z.of_nat J)) with (K - J)%nat by lia.
  remember (K - J)%nat as n eqn:Hn. revert J Hn Hbody.
  induction n as [|n IH]; intros J Hn Hbody; simpl.
  - eapply draws_ext; [apply draws_ret|].
    intros r c _ _. simpl. by rewrite bool_decide_eq_false_2 by lia.
  - replace (Z.of_nat J + 1) with (Z.of_nat (S J)) by lia.
    eapply draws_ext.
    + apply draws_bind; [apply (Hbody J); lia|]. intros _.
      apply (IH (S J)); [lia|]. intros i Hi. apply Hbody. lia.
    + intros r c _ _. edges_eq.
Qed.

(** A run [while J < K: ...; J += 1] followed by the end of the
    iteration. *)
Lemma draws_run {A} nr nc (sel : nat → nat → nat) (e : nat → nat → edges)
    (body : Z → M unit) (J K : nat) (a : A) :
  (∀ i, (J ≤ i < K)%nat →
     draws nr nc (body (Z.of_nat i))
       (λ r c, if bool_decide (sel r c = i) then e r c else no_edges)) →
  draws nr nc (while_lt (Z.of_nat J) (Z.of_nat K) body ;; ret a)
    (λ r c, if bool_decide (J ≤ sel r c < K)%nat then e r c else no_edges).
Proof.
  intros Hbody. eapply draws_ext.
  - apply draws_bind; [by apply draws_while|]. intros _. apply draws_ret.
  - intros r c _ _. simpl. apply join_no_edges_r.
Qed.

Lemma close_indices_head_range (a tol : coord) (ts : list interval) J rest :
  close_indices isclose a tol ts = J :: rest →
  ∃ j, J = Z.of_nat j ∧ (j < length ts)%nat.
Proof.
  intros E. destruct (close_from_head _ _ _ _ _ _ E) as (j & t & -> & Ht & _).
  exists j. split; [lia|]. eapply lookup_lt_Some; eauto.
Qed.


Ltac mark_lemma :=
  first [ exact set_left_mark | exact set_right_mark
        | exact set_top_mark | exact set_bottom_mark ].

Ltac py_subscript :=
  first [ apply py_index_pred; lia
        | apply py_index_last; lia
        | apply py_index_nat; lia
        | apply (py_index_nat _ 0); lia ].

(** One assignment, or two in a row, inside a run. *)
Ltac draw_body :=
  eapply draws_ext;
  [ first
      [ eapply draws_setattr; [py_subscript | py_subscript | mark_lemma]
      | apply draws_bind;
        [ eapply draws_setattr; [py_subscript | py_subscript | mark_lemma]
        | intros _; eapply draws_setattr;
          [py_subscript | py_subscript | mark_lemma] ] ]
  | intros; edges_eq ].

Lemma vertical_step_draws (cols rows : list interval) (tol : coord)
    (v : line) (L : option Z) :
  (0 < length cols)%nat →
  draws (length rows) (length cols)
    (vertical_step isclose cols rows tol v L)
    (vertical_edges isclose cols rows tol v).
Proof.
  intros Hnc. unfold vertical_step, vertical_edges.
  destruct (close_indices isclose (l3 v) tol rows) as [|J j] eqn:Ej;
    [apply draws_ret|].
  destruct (close_indices_head_range _ _ _ _ _ Ej) as (j0 & -> & Hj0).
  rewrite Nat2Z.id.
  destruct (close_indices isclose (l1 v) tol rows) as [|K k] eqn:Ek;
    [|destruct (close_indices_head_range _ _ _ _ _ Ek) as (k0 & -> & Hk0)];
    cbn [run_end]; rewrite ?Nat2Z.id; unfold len; cbn zeta;
    (destruct (close_indices isclose (l0 v) tol cols) as [|I0 irest] eqn:Ei;
     [|destruct (close_indices_head_range _ _ _ _ _ Ei) as (l & -> & Hl)];
     repeat case_decide; try discriminate; simplify_eq; cbn [item0 hd];
     rewrite ?Nat2Z.id).
  all: eapply draws_ext;
    [ first
        [ apply (draws_run _ _ (λ r _, r)
                   (λ _ c, mkEdges false (bool_decide (c = (length cols - 1)%nat))
                                   false false));
          intros i Hi; draw_body
        | apply (draws_run _ _ (λ r _, r)
                   (λ _ c, mkEdges (bool_decide (c = 0%nat)) false false false));
          intros i Hi; draw_body
        | apply (draws_run _ _ (λ r _, r)
                   (λ _ c, mkEdges (bool_decide (c = l))
                                   (bool_decide (c = wrap_pred (length cols) l))
                                   false false));
          intros i Hi; draw_body ]
    | intros r c _ _; reflexivity ].
Qed.


Lemma horizontal_step_draws (cols rows : list interval) (tol : coord)
    (h : line) (L : option Z) :
  close_indices isclose (l1 h) tol rows ≠ [] →
  draws (length rows) (length cols)
    (horizontal_step isclose cols rows tol h L)
    (horizontal_edges isclose cols rows tol h).
Proof.
  intros Hi. unfold horizontal_step, horizontal_edges.
  destruct (close_indices isclose (l0 h) tol cols) as [|J j] eqn:Ej;
    [apply draws_ret|].
  destruct (close_indices_head_range _ _ _ _ _ Ej) as (j0 & -> & Hj0).
  rewrite Nat2Z.id.
  destruct (close_indices isclose (l1 h) tol rows) as [|I0 irest] eqn:Ei;
    [done|].
  destruct (close_indices_head_range _ _ _ _ _ Ei) as (l & -> & Hl).
  destruct (close_indices isclose (l2 h) tol cols) as [|K k] eqn:Ek;
    [|destruct (close_indices_head_range _ _ _ _ _ Ek) as (k0 & -> & Hk0)];
    cbn [run_end]; rewrite ?Nat2Z.id; unfold len; cbn zeta;
    repeat case_decide; try discriminate; simplify_eq; cbn [item0 hd];
    rewrite ?Nat2Z.id.
  all: eapply draws_ext;
    [ first
        [ apply (draws_run _ _ (λ _ c, c)
                   (λ r _, mkEdges false false (bool_decide (r = 0%nat)) false));
          intros i Hi'; draw_body
        | apply (draws_run _ _ (λ _ c, c)
                   (λ r _, mkEdges false false (bool_decide (r = l))
                                   (bool_decide (r = wrap_pred (length rows) l))));
          intros i Hi'; draw_body ]
    | intros r c _ _; reflexivity ].
Qed.


Lemma draws_for_lines_in nr nc step (W : line → nat → nat → edges)
    (ls : list line) (L : option Z) :
  Forall (λ l, ∀ L, draws nr nc (step l L) (W l)) ls →
  draws nr nc (for_lines step ls L) (union_edges (W <$> ls)).
Proof.
  intros Hstep. revert L.
  induction Hstep as [|l ls Hl _ IH]; intros L; simpl.
  - apply draws_ret.
  - apply draws_bind; [apply Hl|]. intros L'. apply IH.
Qed.

Lemma set_edges_body_draws (cols rows : list interval)
    (vertical horizontal : list line) (tol : coord) :
  (0 < length cols)%nat →
  Forall (row_anchored isclose rows tol) horizontal →
  draws (length rows) (length cols)
    (set_edges_body isclose cols rows vertical horizontal tol)
    (drawn isclose cols rows tol vertical horizontal).
Proof.
  intros Hnc Hh. unfold set_edges_body, drawn.
  eapply draws_ext.
  - apply draws_bind.
    + apply draws_for_lines. intros v L. by apply vertical_step_draws.
    + intros L. apply draws_bind; [|intros _; apply draws_ret].
      apply draws_for_lines_in. eapply Forall_impl; [exact Hh|].
      intros h Hanch L'. by apply horizontal_step_draws.
  - intros r c _ _. simpl. by rewrite join_no_edges_r.
Qed.

Lemma call_returns (m : M unit) (t : Table) (g' : grid) :
  m (cells t) = (Returned tt, g') →
  call m t = (Returned tt,
              mkTable (cols t) (rows t) g' (df t) (shape t) (accuracy t)
                      (whitespace t) (order t) (page t)).
Proof. intros Hrun. unfold call. by rewrite Hrun. Qed.

(** Two grids of the same shape with the same cell at every position are
    the same grid. *)
Lemma grid_ext N M (g1 g2 : grid) :
  has_shape N M g1 → has_shape N M g2 →
  (∀ r c, cell_at g1 r c = cell_at g2 r c) → g1 = g2.
Proof.
  intros Hs1 Hs2 Hc. apply list_eq. intros r.
  destruct (g1 !! r) as [row1|] eqn:E1, (g2 !! r) as [row2|] eqn:E2.
  - f_equal. apply list_eq. intros c.
    specialize (Hc r c). unfold cell_at in Hc. by rewrite E1, E2 in Hc.
  - apply lookup_lt_Some in E1. apply lookup_ge_None in E2.
    destruct Hs1 as [? _], Hs2 as [? _]. lia.
  - apply lookup_lt_Some in E2. apply lookup_ge_None in E1.
    destruct Hs1 as [? _], Hs2 as [? _]. lia.
  - reflexivity.
Qed.

(** X8. What [set_edges] computes.  On a table whose grid matches its
    row and column lists, with at least one column and with every
    horizontal segment's y close to some row, [set_edges] returns
    normally, keeps the lists and the shape, and turns every cell into
    the same cell with the flags of [drawn] set in addition: for each
    vertical segment the sides [vertical_edges] gives and for each
    horizontal segment the sides [horizontal_edges] gives, whatever was
    set before stays set, and nothing else changes. *)
Theorem set_edges_draws (t : Table) (vertical horizontal : list line)
    (tol : coord) :
  well_formed t → (0 < length (cols t))%nat →
  Forall (row_anchored isclose (rows t) tol) horizontal →
  ∃ t', set_edges isclose t vertical horizontal tol = (Returned tt, t') ∧
    cols t' = cols t ∧ rows t' = rows t ∧ well_formed t' ∧
    ∀ r c, cell_at (cells t') r c =
           mark (drawn isclose (cols t) (rows t) tol vertical horizontal r c)
             <$> cell_at (cells t) r c.
Proof.
  intros Hwf Hnc Hh.
  destruct (set_edges_body_draws (cols t) (rows t) vertical horizontal tol
              Hnc Hh (cells t) Hwf) as ([] & g' & Hrun & Hs' & Hc).
  eexists. split; [unfold set_edges; by apply call_returns|].
  simpl. repeat split; try exact Hc; apply Hs'.
Qed.


Lemma union_edges_perm (Ws Ws' : list (nat → nat → edges)) (r c : nat) :
  Ws ≡ₚ Ws' → union_edges Ws r c = union_edges Ws' r c.
Proof.
  unfold union_edges. induction 1 as [|W Ws Ws' _ IH|W1 W2 Ws|Ws1 Ws2 Ws3 _ IH1 _ IH2];
    simpl.
  - reflexivity.
  - by rewrite IH.
  - rewrite !join_edges_assoc. by rewrite (join_edges_comm (W2 r c)).
  - by rewrite IH1.
Qed.

Lemma drawn_perm (cols rows : list interval) (tol : coord)
    (v v' h h' : list line) (r c : nat) :
  v ≡ₚ v' → h ≡ₚ h' →
  drawn isclose cols rows tol v h r c = drawn isclose cols rows tol v' h' r c.
Proof.
  intros Hv Hh. unfold drawn.
  f_equal; apply union_edges_perm; by apply fmap_Permutation.
Qed.

(** X9. The order of the detected segments does not matter.  On a
    well-formed table with at least one column, and with every
    horizontal segment's y close to some row, [set_edges] gives the same
    result for any reordering of the vertical list and of the horizontal
    list. *)
Theorem set_edges_order_independent (t : Table)
    (vertical vertical' horizontal horizontal' : list line) (tol : coord) :
  well_formed t → (0 < length (cols t))%nat →
  Forall (row_anchored isclose (rows t) tol) horizontal →
  vertical ≡ₚ vertical' → horizontal ≡ₚ horizontal' →
  set_edges isclose t vertical horizontal tol =
  set_edges isclose t vertical' horizontal' tol.
Proof.
  intros Hwf Hnc Hh Hpv Hph.
  assert (Hh' : Forall (row_anchored isclose (rows t) tol) horizontal')
    by (by rewrite <- Hph).
  destruct (set_edges_body_draws (cols t) (rows t) vertical horizontal tol
              Hnc Hh (cells t) Hwf) as ([] & g1 & Hrun1 & Hs1 & Hc1).
  destruct (set_edges_body_draws (cols t) (rows t) vertical' horizontal' tol
              Hnc Hh' (cells t) Hwf) as ([] & g2 & Hrun2 & Hs2 & Hc2).
  unfold set_edges.
  rewrite (call_returns _ _ _ Hrun1), (call_returns _ _ _ Hrun2).
  do 2 f_equal. apply (grid_ext _ _ _ _ Hs1 Hs2). intros r c.
  rewrite Hc1, Hc2. by rewrite (drawn_perm _ _ _ _ _ _ _ r c Hpv Hph).
Qed.

(** X10. Repeating [set_edges] changes nothing.  Under the same
    conditions, a second call with the same segments and tolerance
    returns the table the first call returned. *)
Theorem set_edges_idempotent (t : Table) (vertical horizontal : list line)
    (tol : coord) :
  well_formed t → (0 < length (cols t))%nat →
  Forall (row_anchored isclose (rows t) tol) horizontal →
  set_edges isclose (set_edges isclose t vertical horizontal tol).2
            vertical horizontal tol =
  set_edges isclose t vertical horizontal tol.
Proof.
  intros Hwf Hnc Hh.
  destruct (set_edges_body_draws (cols t) (rows t) vertical horizontal tol
              Hnc Hh (cells t) Hwf) as ([] & g1 & Hrun1 & Hs1 & Hc1).
  destruct (set_edges_body_draws (cols t) (rows t) vertical horizontal tol
              Hnc Hh g1 Hs1) as ([] & g2 & Hrun2 & Hs2 & Hc2).
  unfold set_edges at 2 3. rewrite (call_returns _ _ _ Hrun1). simpl.
  unfold set_edges. simpl. unfold call. simpl. rewrite Hrun2.
  do 2 f_equal. apply (grid_ext _ _ _ _ Hs2 Hs1). intros r c.
  rewrite Hc2, Hc1. destruct (cell_at (cells t) r c); simpl; [|done].
  by rewrite mark_mark, join_edges_idemp.
Qed.


Lemma same_but_flags_mark (e : edges) (c : Cell) : same_but_flags c (mark e c).
Proof. unfold same_but_flags. simpl. tauto. Qed.

(** X11. A vertical segment on a shared boundary.  When the segment's x
    is close to a column other than column 0 alone (first match [l]) and
    its [v[3]] anchors row [J], the call sets [left] on column [l] and
    [right] on the column Python reads for subscript [l - 1], in rows
    [J] up to the end of the run, and nothing else.  For [l] > 0 that is
    column [l - 1]; for [l = 0] (x close to column 0 and to a further
    column) subscript -1 is the *last* column. *)
Theorem shared_vertical_line (t : Table) (v : line) (tol : coord)
    (l J : nat) (irest jrest : list Z) :
  well_formed t →
  close_indices isclose (l0 v) tol (cols t) = Z.of_nat l :: irest →
  l ≠ 0%nat ∨ irest ≠ [] →
  close_indices isclose (l3 v) tol (rows t) = Z.of_nat J :: jrest →
  ∃ t', set_edges isclose t [v] [] tol = (Returned tt, t') ∧
    ∀ r c cell, cell_at (cells t) r c = Some cell →
      ∃ cell', cell_at (cells t') r c = Some cell' ∧
        same_but_flags cell cell' ∧
        left cell' =
          left cell ||
          bool_decide ((J ≤ r < run_end (close_indices isclose (l1 v) tol (rows t))
                                        (length (rows t)))%nat ∧ c = l) ∧
        right cell' =
          right cell ||
          bool_decide ((J ≤ r < run_end (close_indices isclose (l1 v) tol (rows t))
                                        (length (rows t)))%nat ∧
                       c = wrap_pred (length (cols t)) l) ∧
        top cell' = top cell ∧ bottom cell' = bottom cell.
Proof.
  intros Hwf Ei Hl Ej.
  destruct (close_indices_head_range _ _ _ _ _ Ei) as (l' & Hl' & Hlt).
  assert (l' = l) as -> by lia.
  destruct (set_edges_body_draws (cols t) (rows t) [v] [] tol
              ltac:(lia) ltac:(constructor) (cells t) Hwf)
    as ([] & g' & Hrun & _ & Hc).
  eexists. split; [unfold set_edges; by apply call_returns|]. simpl.
  intros r c cell Hcell. eexists. rewrite Hc, Hcell. split; [reflexivity|].
  split; [apply same_but_flags_mark|].
  unfold drawn, union_edges, vertical_edges. simpl. rewrite Ei, Ej.
  rewrite decide_False by (intros [= ? ?]; destruct Hl; [lia|done]).
  rewrite decide_False by discriminate.
  cbn [item0 hd]. rewrite !Nat2Z.id.
  repeat case_bool_decide; simpl; rewrite ?orb_false_r;
    try (repeat split; reflexivity); exfalso; intuition lia.
Qed.


(** C6. The y-coordinate that decides whether a vertical segment is used
    is its fourth component [v[3]], the one matched against the row tops
    to find the starting row [J].  When it is close to no row top the
    segment contributes nothing: its iteration returns normally with the
    grid untouched, and [set_edges] gives the same outcome and the same
    table with the segment in the list as without it.  The other
    y-coordinate [v[1]] only bounds the run: when [v[3]] anchors row [J]
    and [v[1]] is close to no row top, the segment is not discarded but
    drawn from row [J] down to the last row. *)
Theorem unanchored_vertical_discarded (t : Table) (v : line) (tol : coord) :
  (close_indices isclose (l3 v) tol (rows t) = [] →
   (∀ L g, vertical_step isclose (cols t) (rows t) tol v L g = (Returned L, g)) ∧
   ∀ before after horizontal,
     set_edges isclose t (before ++ v :: after) horizontal tol =
     set_edges isclose t (before ++ after) horizontal tol) ∧
  (∀ (J : nat) (jrest : list Z),
     well_formed t → (0 < length (cols t))%nat →
     close_indices isclose (l3 v) tol (rows t) = Z.of_nat J :: jrest →
     close_indices isclose (l1 v) tol (rows t) = [] →
     ∃ t', set_edges isclose t [v] [] tol = (Returned tt, t') ∧
       runs_to_last_row t t' J).
Proof.
  split.
  - intros Hj.
    assert (Hv : ∀ L g,
      vertical_step isclose (cols t) (rows t) tol v L g = (Returned L, g)).
    { intros L g. unfold vertical_step. by rewrite Hj. }
    split; [exact Hv|]. intros before after horizontal.
    unfold set_edges, call, set_edges_body, mbind, M_bind, bind.
    by rewrite (for_lines_skip _ before after v Hv).
  - intros J jrest Hwf Hnc Ej Ek.
    destruct (set_edges_body_draws (cols t) (rows t) [v] [] tol
                Hnc ltac:(constructor) (cells t) Hwf)
      as ([] & g' & Hrun & Hshape & Hc).
    eexists. split; [unfold set_edges; by apply call_returns|].
    unfold runs_to_last_row. simpl. split.
    + intros r c Hr. rewrite Hc.
      unfold drawn, union_edges, vertical_edges. simpl. rewrite Ej, Ek.
      rewrite Nat2Z.id. rewrite bool_decide_eq_false_2 by lia.
      destruct (cell_at (cells t) r c) as [cell|]; [|reflexivity].
      simpl. by rewrite mark_no_edges.
    + intros r Hr.
      assert (Hcol : ∃ c, (c < length (cols t))%nat ∧
                e_left (drawn isclose (cols t) (rows t) tol [v] [] r c) ||
                e_right (drawn isclose (cols t) (rows t) tol [v] [] r c) = true).
      { unfold drawn, union_edges, vertical_edges. simpl. rewrite Ej, Ek.
        rewrite Nat2Z.id. cbn [run_end].
        rewrite bool_decide_eq_true_2 by lia.
        destruct (decide (close_indices isclose (l0 v) tol (cols t) = [0])) as [E0|E0].
        - exists 0%nat. split; [exact Hnc|]. reflexivity.
        - destruct (decide (close_indices isclose (l0 v) tol (cols t) = [])) as [E1|E1].
          + exists (length (cols t) - 1)%nat. split; [lia|].
            simpl. by rewrite bool_decide_eq_true_2.
          + destruct (close_indices isclose (l0 v) tol (cols t)) as [|I irest] eqn:Ei;
              [done|].
            destruct (close_indices_head_range _ _ _ _ _ Ei) as (l & -> & Hl).
            exists l. split; [exact Hl|].
            cbn [item0 hd]. rewrite Nat2Z.id. simpl.
            by rewrite bool_decide_eq_true_2. }
      destruct Hcol as (c & Hclt & Hdrawn).
      destruct (cell_at_in_range _ _ _ r c Hwf ltac:(lia) Hclt) as [cell Hcell].
      exists c, (mark (drawn isclose (cols t) (rows t) tol [v] [] r c) cell).
      split; [by rewrite Hc, Hcell|].
      unfold mark. cbn [left right].
      apply orb_true_iff in Hdrawn as [-> | ->];
        rewrite orb_true_r; auto.
Qed.


(** X12. A horizontal segment whose left extremity [h[0]] is close to no
    column contributes nothing: its iteration returns normally with the
    grid and the local [L] untouched, and [set_edges] gives the same
    outcome and the same table with the segment in the list as without
    it. *)
Theorem unanchored_horizontal_discarded (t : Table)
    (vertical before after : list line) (h : line) (tol : coord) :
  close_indices isclose (l0 h) tol (cols t) = [] →
  (∀ L g, horizontal_step isclose (cols t) (rows t) tol h L g = (Returned L, g)) ∧
  set_edges isclose t vertical (before ++ h :: after) tol =
  set_edges isclose t vertical (before ++ after) tol.
Proof.
  intros Hj.
  assert (Hh : ∀ L g,
    horizontal_step isclose (cols t) (rows t) tol h L g = (Returned L, g)).
  { intros L g. unfold horizontal_step. by rewrite Hj. }
  split; [exact Hh|].
  unfold set_edges, call, set_edges_body, mbind, M_bind, bind.
  destruct (for_lines _ vertical None (cells t)) as [[L|e] g1]; [|reflexivity].
  by rewrite (for_lines_skip _ before after h Hh).
Qed.

Lemma run_returns {A} nr nc (sel : nat → nat → nat) (e : nat → nat → edges)
    (body : Z → M unit) (J K : nat) (a : A) (g : grid) :
  (∀ i, (J ≤ i < K)%nat →
     draws nr nc (body (Z.of_nat i))
       (λ r c, if bool_decide (sel r c = i) then e r c else no_edges)) →
  has_shape nr nc g →
  ∃ g', (while_lt (Z.of_nat J) (Z.of_nat K) body ;; ret a) g = (Returned a, g') ∧
    has_shape nr nc g' ∧
    ∀ r c, cell_at g' r c =
           mark (if bool_decide (J ≤ sel r c < K)%nat then e r c else no_edges)
             <$> cell_at g r c.
Proof.
  intros Hbody Hs.
  destruct (draws_while _ _ sel e body J K Hbody g Hs) as ([] & g' & Hrun & Hs' & Hc).
  exists g'. split; [|done]. unfold mbind, M_bind, bind. by rewrite Hrun.
Qed.

(** X13. Where the "only bottom edge" branch writes.  For a horizontal
    segment whose y is close to no row and whose left extremity is
    anchored at column [J]: if the local [L] is bound to a valid row
    subscript, the segment sets [bottom] on the cells of *that* row,
    columns [J] up to the end of the run, whatever the number of rows,
    changes nothing else and leaves [L] as it is; if [L] is unbound and
    the run is not empty, the iteration raises before touching a
    cell. *)
Theorem bottom_edge_lands_on_L (cols rows : list interval) (tol : coord)
    (h : line) (J : nat) (jrest : list Z) (g : grid) :
  has_shape (length rows) (length cols) g →
  close_indices isclose (l1 h) tol rows = [] →
  close_indices isclose (l0 h) tol cols = Z.of_nat J :: jrest →
  (∀ L0 l, py_index (length rows) L0 = Some l →
     ∃ g', horizontal_step isclose cols rows tol h (Some L0) g
             = (Returned (Some L0), g') ∧
       has_shape (length rows) (length cols) g' ∧
       ∀ r c cell, cell_at g r c = Some cell →
         ∃ cell', cell_at g' r c = Some cell' ∧ same_but_flags cell cell' ∧
           left cell' = left cell ∧ right cell' = right cell ∧
           top cell' = top cell ∧
           bottom cell' =
             bottom cell ||
             bool_decide (r = l ∧
               (J ≤ c < run_end (close_indices isclose (l2 h) tol cols)
                                (length cols))%nat)) ∧
  ((J < run_end (close_indices isclose (l2 h) tol cols) (length cols))%nat →
   horizontal_step isclose cols rows tol h None g = (Raised UnboundLocalError, g)).
Proof.
  intros Hs Ei Ej. split.
  - intros L0 l HL.
    assert (Hrun : ∃ g',
      horizontal_step isclose cols rows tol h (Some L0) g
        = (Returned (Some L0), g') ∧
      has_shape (length rows) (length cols) g' ∧
      ∀ r c, cell_at g' r c =
        mark (if bool_decide
                   (J ≤ c < run_end (close_indices isclose (l2 h) tol cols)
                                    (length cols))%nat
              then mkEdges false false false (bool_decide (r = l))
              else no_edges) <$> cell_at g r c).
    { unfold horizontal_step. rewrite Ei, Ej.
      rewrite decide_False by discriminate. rewrite decide_True by reflexivity.
      destruct (close_indices isclose (l2 h) tol cols) as [|K k] eqn:Ek;
        [|destruct (close_indices_head_range _ _ _ _ _ Ek) as (k0 & -> & Hk0)];
        cbn [run_end]; rewrite ?Nat2Z.id; unfold len; cbn zeta;
        apply (run_returns _ _ (λ _ c, c)
                 (λ r _, mkEdges false false false (bool_decide (r = l))));
        try exact Hs; intros i Hi; simpl;
        (eapply draws_ext;
         [ eapply draws_setattr;
           [exact HL | apply py_index_nat; lia | exact set_bottom_mark]
         | intros; edges_eq ]). }
    destruct Hrun as (g' & Hrun & Hs' & Hc).
    exists g'. split; [exact Hrun|]. split; [exact Hs'|].
    intros r c cell Hcell. eexists. rewrite Hc, Hcell. split; [reflexivity|].
    split; [apply same_but_flags_mark|].
    repeat case_bool_decide; simpl; rewrite ?orb_false_r;
      try (repeat split; reflexivity); exfalso; intuition lia.
  - intros HJK. apply (bottom_branch_unbound cols rows tol h (Z.of_nat J) jrest g Ei Ej).
    destruct (close_indices isclose (l2 h) tol cols) as [|K k] eqn:Ek.
    + simpl in HJK. unfold len. lia.
    + destruct (close_indices_head_range _ _ _ _ _ Ek) as (k0 & -> & Hk0).
      simpl in HJK. lia.
Qed.


(** ** The border: degenerate grids, repetition, and spans *)

(** X14. [set_border] on a table without cells.  With no rows and no
    columns it returns normally and changes nothing.  With rows but no
    columns its first assignment [self.cells[0][0].left = True] raises
    [IndexError]; with columns but no rows [self.cells[0][0].top = True]
    does.  In both cases the table is left as constructed. *)
Theorem set_border_degenerate :
  set_border (Table_init (coord:=coord) [] []) = (Returned tt, Table_init [] []) ∧
  (∀ rs : list interval, rs ≠ [] →
     set_border (Table_init [] rs) = (Raised IndexError, Table_init [] rs)) ∧
  (∀ cs : list interval, cs ≠ [] →
     set_border (Table_init cs []) = (Raised IndexError, Table_init cs [])).
Proof.
  split; [reflexivity|]. split.
  - intros [|r0 rs] Hne; [done|].
    unfold set_border, call, set_border_body, range, len.
    cbn [cols rows cells Table_init length].
    rewrite (seqZ_cons 0 (Z.of_nat (S (length rs)))) by lia. reflexivity.
  - intros [|c0 cs] Hne; [done|].
    unfold set_border, call, set_border_body, range, len.
    cbn [cols rows cells Table_init length].
    rewrite (seqZ_nil 0 (Z.of_nat 0)) by lia.
    rewrite (seqZ_cons 0 (Z.of_nat (S (length cs)))) by lia. reflexivity.
Qed.

Lemma border_cell_idempotent N M r c (cell : Cell) :
  border_cell N M r c (border_cell N M r c cell) = border_cell N M r c cell.
Proof. unfold border_cell. repeat case_decide; reflexivity. Qed.

(** X15. [set_border] on any well-formed table with at least one row
    and one column (a single row or column included) returns normally
    and sets [left] on column 0, [right] on the last column, [top] on
    row 0 and [bottom] on the last row, adding to what was set and
    changing nothing else; a second [set_border] changes nothing. *)
Theorem set_border_any (t : Table) :
  well_formed t → (0 < length (rows t))%nat → (0 < length (cols t))%nat →
  (∃ t', set_border t = (Returned tt, t') ∧ well_formed t' ∧
     ∀ r c cell, cell_at (cells t) r c = Some cell →
       ∃ cell', cell_at (cells t') r c = Some cell' ∧
         same_but_flags cell cell' ∧
         left cell' = left cell || bool_decide (c = 0%nat) ∧
         right cell' = right cell || bool_decide (c = (length (cols t) - 1)%nat) ∧
         top cell' = top cell || bool_decide (r = 0%nat) ∧
         bottom cell' = bottom cell || bool_decide (r = (length (rows t) - 1)%nat)) ∧
  set_border (set_border t).2 = set_border t.
Proof.
  intros Hwf HN HM.
  pose proof (set_border_body_acts _ _ (cols t) (rows t) eq_refl eq_refl HN HM)
    as Hacts.
  destruct (Hacts (cells t) Hwf) as (g1 & Hrun1 & Hs1 & Hc1).
  destruct (Hacts g1 Hs1) as (g2 & Hrun2 & Hs2 & Hc2).
  split.
  - eexists. split; [unfold set_border; by apply call_returns|].
    simpl. split; [exact Hs1|].
    intros r c cell Hcell. eexists. rewrite Hc1, Hcell.
    split; [reflexivity|]. unfold border_cell, same_but_flags.
    repeat case_decide; repeat case_bool_decide; try done; simpl;
      rewrite ?orb_true_r, ?orb_false_r; tauto.
  - unfold set_border at 2 3. rewrite (call_returns _ _ _ Hrun1). simpl.
    unfold set_border, call. simpl. rewrite Hrun2. do 2 f_equal.
    apply (grid_ext _ _ _ _ Hs2 Hs1). intros r c. rewrite Hc2, Hc1.
    destruct (cell_at (cells t) r c); simpl; [|done].
    by rewrite border_cell_idempotent.
Qed.

(** X16. Border, then spans, on a new table.  After [set_border] and
    [set_span] on a table straight from the constructor with at least
    one row and one column, a cell spans horizontally exactly when the
    table is a single row of two or more columns, and vertically exactly
    when it is a single column of two or more rows; in every other case
    (one cell, or at least two rows and two columns) no span is
    inferred. *)
Theorem border_then_span (cols rows : list interval) :
  rows ≠ [] → cols ≠ [] →
  ∃ t1 t2, set_border (Table_init cols rows) = (Returned tt, t1) ∧
    set_span t1 = (Returned tt, t2) ∧
    ∀ r c cell, cell_at (cells t2) r c = Some cell →
      (hspan cell = true ↔ length rows = 1%nat ∧ (2 ≤ length cols)%nat) ∧
      (vspan cell = true ↔ length cols = 1%nat ∧ (2 ≤ length rows)%nat).
Proof.
  intros Hrows Hcols.
  assert (HN : (0 < length rows)%nat) by (destruct rows; [done|simpl; lia]).
  assert (HM : (0 < length cols)%nat) by (destruct cols; [done|simpl; lia]).
  destruct (set_border_body_acts _ _ cols rows eq_refl eq_refl HN HM
              _ (table_init_has_shape cols rows)) as (g1 & Hrun1 & Hs1 & Hc1).
  eexists. eexists.
  split; [unfold set_border; by apply call_returns|].
  split; [apply set_span_returns|]. simpl.
  intros r c cell. rewrite cell_at_fmap, Hc1.
  destruct (cell_at (cells (Table_init cols rows)) r c) as [cell0|] eqn:Hcell0;
    simpl; [|discriminate].
  destruct (cell_at_Some_range _ _ _ _ _ _ (table_init_has_shape cols rows) Hcell0)
    as [Hr Hc].
  destruct (table_init_cell_at _ _ _ _ _ Hcell0) as (ri & ci & ->).
  intros [= <-]. unfold border_cell.
  repeat case_decide; cbv [span_cell bound Cell_init set_left set_right set_top
    set_bottom set_hspan set_vspan left right top bottom hspan vspan
    Z.b2z Z.add Z.eqb Pos.add Pos.succ Pos.eqb negb andb];
    split; split; intros; try discriminate; try reflexivity; lia.
Qed.


(** X17. [set_edges] on a table with rows but no columns.  A vertical
    segment anchored at row [J] with a non-empty run takes the "only
    right edge" branch with [L = len(self.cols) - 1 = -1], and its first
    assignment [self.cells[J][-1].right = True] raises [IndexError]; the
    table is left as it was and the remaining segments are not
    processed. *)
Theorem set_edges_no_columns (t : Table) (v : line) (vertical horizontal : list line)
    (tol : coord) (J : nat) (jrest : list Z) :
  well_formed t → cols t = [] →
  close_indices isclose (l3 v) tol (rows t) = Z.of_nat J :: jrest →
  (J < run_end (close_indices isclose (l1 v) tol (rows t)) (length (rows t)))%nat →
  set_edges isclose t (v :: vertical) horizontal tol = (Raised IndexError, t).
Proof.
  intros Hwf Hcols Ej HJK.
  destruct (close_indices_head_range _ _ _ _ _ Ej) as (j0 & Hj0 & Hlt).
  assert (j0 = J) as -> by lia.
  assert (Hstep : ∀ L, vertical_step isclose (cols t) (rows t) tol v L (cells t)
                       = (Raised IndexError, cells t)).
  { intros L. unfold vertical_step. rewrite Hcols, Ej. cbn [close_indices close_from].
    rewrite decide_False by discriminate. rewrite decide_True by reflexivity.
    assert (Hset : ∀ f, setattr (Z.of_nat J) (len (@nil interval) - 1) f (cells t)
                        = (Raised IndexError, cells t)).
    { intros f. unfold setattr. destruct Hwf as [Hlen Hrows].
      rewrite Hlen, py_index_nat by lia.
      destruct (lookup_lt_is_Some_2 (cells t) J) as [row Hrow]; [lia|].
      rewrite Hrow, (Forall_lookup_1 _ _ _ _ Hrows Hrow), Hcols. reflexivity. }
    destruct (close_indices isclose (l1 v) tol (rows t)) as [|K k] eqn:Ek;
      [|destruct (close_indices_head_range _ _ _ _ _ Ek) as (k0 & -> & Hk0)];
      cbn [run_end] in HJK; unfold while_lt, len in *; cbn zeta.
    - destruct (Z.to_nat (Z.of_nat (length (rows t)) - Z.of_nat J)) eqn:E; [lia|].
      simpl. unfold mbind, M_bind, bind. by rewrite Hset.
    - destruct (Z.to_nat (Z.of_nat k0 - Z.of_nat J)) eqn:E; [lia|].
      simpl. unfold mbind, M_bind, bind. by rewrite Hset. }
  unfold set_edges, call, set_edges_body. simpl.
  unfold mbind, M_bind, bind. rewrite Hstep. by destruct t.
Qed.

End CamelotFacts.

(** * Properties of export *)

Section ExportFacts.

Context {coord : Type}.
Variable path_join : string → string → string.
Variable path_join1 : string → string.
Variable path_dirname : string → string.
Variable path_basename : string → string.
Variable path_splitext : string → string * string.
Variable tmpdir : string.

#[local] Existing Instance IO_ret.
#[local] Existing Instance IO_bind.

#[local] Abbreviation Table := (@Table coord).
#[local] Abbreviation TableList := (@TableList coord).

Lemma io_for_each_done {A} (xs : list A) (body : A → IO unit)
    (w : A → list action) :
  Forall (λ x, body x = (Done tt, w x)) xs →
  io_for_each xs body = (Done tt, concat (w <$> xs)).
Proof.
  induction 1 as [|x xs Hx _ IH]; simpl; [reflexivity|].
  unfold mbind, IO_bind, io_bind. by rewrite Hx, IH.
Qed.

Lemma io_for_each_failed {A} (before after : list A) (x : A)
    (body : A → IO unit) (w : A → list action) (e : io_exn) (wx : list action) :
  Forall (λ y, body y = (Done tt, w y)) before →
  body x = (Failed e, wx) →
  io_for_each (before ++ x :: after) body
  = (Failed e, concat (w <$> before) ++ wx).
Proof.
  intros Hbefore Hx. induction Hbefore as [|y before Hy _ IH]; simpl.
  - unfold mbind, IO_bind, io_bind. by rewrite Hx.
  - unfold mbind, IO_bind, io_bind. rewrite Hy, IH. by rewrite app_assoc.
Qed.

Lemma str_in_three (f : string) :
  str_in f ["csv"; "json"; "html"]%string = true →
  f = "csv"%string ∨ f = "json"%string ∨ f = "html"%string.
Proof.
  unfold str_in. simpl. rewrite !orb_true_iff, !String.eqb_eq.
  intuition discriminate.
Qed.

Lemma write_one (f filepath : string) (t : Table) :
  str_in f ["csv"; "json"; "html"]%string = true →
  match _format_func t f with
  | None => io_raise AttributeError
  | Some to_format => to_format filepath []
  end =
  match df t with
  | None => (Failed AttributeError, [])
  | Some _ => (Done tt, written f filepath t)
  end.
Proof.
  intros Hf. unfold written.
  destruct (str_in_three f Hf) as [-> | [-> | ->]]; simpl;
    unfold to_csv, to_json, to_html; by destruct (df t).
Qed.

Lemma _write_file_done (tl : TableList) (f dirname root ext : string) :
  str_in f ["csv"; "json"; "html"]%string = true →
  Forall (λ t, df t ≠ None) (_tables tl) →
  _write_file path_join path_join1 tl f dirname root ext =
  (Done tt,
   concat ((λ t, written f (table_path path_join path_join1 dirname root ext t) t)
             <$> _tables tl)).
Proof.
  intros Hf Hdf. unfold _write_file. apply io_for_each_done.
  eapply Forall_impl; [exact Hdf|]. intros t Ht. cbn zeta.
  rewrite (write_one f _ t Hf). unfold table_path.
  destruct (df t) eqn:E; [reflexivity|congruence].
Qed.

Lemma written_length (f filepath : string) (t : Table) :
  df t ≠ None → length (written f filepath t) = 1%nat.
Proof.
  intros Hdf. unfold written. destruct (df t) eqn:E; [|congruence].
  by repeat destruct (String.eqb _ _).
Qed.

Lemma concat_singletons {A B} (w : A → list B) (xs : list A) :
  Forall (λ x, length (w x) = 1%nat) xs → length (concat (w <$> xs)) = length xs.
Proof.
  induction 1 as [|x xs Hx _ IH]; [reflexivity|].
  rewrite fmap_cons. cbn [concat]. rewrite length_app, Hx, IH. reflexivity.
Qed.

(** X18. Batch export to csv, json or html when every table has its
    [df]: the call returns normally and writes exactly one file per
    table, in list order, each at [join(dirname, filename)] with the
    file name built from root, page, order and extension.  Without
    [compress] the directory is that of [path]; with it, the files go to
    the directory [mkdtemp] returned and are then added, in the same
    order and under their base names, to the archive
    [join(dirname(path), root) + '.zip']. *)
Theorem export_writes_every_table (tl : TableList) (path f : string)
    (compress : bool) :
  str_in f ["csv"; "json"; "html"]%string = true →
  Forall (λ t, df t ≠ None) (_tables tl) →
  let root := (path_splitext (path_basename path)).1 in
  let ext := (path_splitext (path_basename path)).2 in
  let dirname := if compress then tmpdir else path_dirname path in
  let zipname := String.append (path_join (path_dirname path) root) ".zip" in
  let file_of := table_path path_join path_join1 dirname root ext in
  let files := concat ((λ t, written f (file_of t) t) <$> _tables tl) in
  export path_join path_join1 path_dirname path_basename path_splitext tmpdir
         tl path f compress =
    (Done tt,
     if compress then
       mkdtemp :: files ++
       ZipFile_open zipname ::
       ((λ t, ZipFile_write zipname (file_of t) (path_basename (file_of t)))
          <$> _tables tl) ++
       [ZipFile_close zipname]
     else files) ∧
  length files = length (_tables tl).
Proof.
  intros Hf Hdf root ext dirname zipname file_of files. split.
  - unfold export. fold root ext.
    destruct (path_splitext (path_basename path)) as [root' ext'] eqn:E.
    simpl in root, ext. subst root ext.
    destruct compress;
      unfold mbind, mret, IO_bind, IO_ret, io_bind, io_ret, emit;
      cbn -[str_in _write_file _compress_dir String.append];
      rewrite Hf.
    + rewrite (_write_file_done tl f tmpdir root' ext' Hf Hdf).
      unfold _compress_dir, mbind, IO_bind, io_bind, emit.
      rewrite (io_for_each_done _ _
                 (λ t, [ZipFile_write zipname (file_of t) (path_basename (file_of t))]))
        by (apply Forall_forall; intros t _; reflexivity).
      assert (Hc : ∀ (g : Table → action) (xs : list Table),
                 concat ((λ t, [g t]) <$> xs) = g <$> xs).
      { intros g xs. induction xs as [|x xs IH]; [done|].
        rewrite !fmap_cons. cbn [concat]. by rewrite IH. }
      rewrite Hc. reflexivity.
    + rewrite (_write_file_done tl f (path_dirname path) root' ext' Hf Hdf).
      cbn. by rewrite app_nil_r.
  - apply concat_singletons. eapply Forall_impl; [exact Hdf|].
    intros t Ht. by apply written_length.
Qed.

Lemma _write_file_failed (tl : TableList) (before after : list Table) (t : Table)
    (f dirname root ext : string) :
  str_in f ["csv"; "json"; "html"]%string = true →
  _tables tl = before ++ t :: after →
  Forall (λ t, df t ≠ None) before → df t = None →
  _write_file path_join path_join1 tl f dirname root ext =
  (Failed AttributeError,
   concat ((λ t, written f (table_path path_join path_join1 dirname root ext t) t)
             <$> before)).
Proof.
  intros Hf Htl Hdf Hnone. unfold _write_file. rewrite Htl.
  rewrite (io_for_each_failed before after t _
             (λ t, written f (table_path path_join path_join1 dirname root ext t) t)
             AttributeError []).
  - by rewrite app_nil_r.
  - eapply Forall_impl; [exact Hdf|]. intros t' Ht'. cbn zeta.
    rewrite (write_one f _ t' Hf). unfold table_path.
    destruct (df t') eqn:E; [reflexivity|congruence].
  - cbn zeta. rewrite (write_one f _ t Hf). by rewrite Hnone.
Qed.

(** X19. Batch export to csv, json or html stops at the first table
    whose [df] is still [None]: the call raises [AttributeError] after
    the files of the tables before it have been written; no later table
    is written and no archive is created (with [compress] the temporary
    directory has already been made). *)
Theorem export_stops_at_missing_df (tl : TableList) (before after : list Table)
    (t : Table) (path f : string) (compress : bool) :
  str_in f ["csv"; "json"; "html"]%string = true →
  _tables tl = before ++ t :: after →
  Forall (λ t, df t ≠ None) before → df t = None →
  let root := (path_splitext (path_basename path)).1 in
  let ext := (path_splitext (path_basename path)).2 in
  let dirname := if compress then tmpdir else path_dirname path in
  let file_of := table_path path_join path_join1 dirname root ext in
  export path_join path_join1 path_dirname path_basename path_splitext tmpdir
         tl path f compress =
    (Failed AttributeError,
     (if compress then [mkdtemp] else []) ++
     concat ((λ t, written f (file_of t) t) <$> before)).
Proof.
  intros Hf Htl Hdf Hnone root ext dirname file_of.
  unfold export. fold root ext.
  destruct (path_splitext (path_basename path)) as [root' ext'] eqn:E.
  simpl in root, ext. subst root ext.
  destruct compress;
    unfold mbind, mret, IO_bind, IO_ret, io_bind, io_ret, emit;
    cbn -[str_in _write_file _compress_dir String.append];
    rewrite Hf;
    by rewrite (_write_file_failed tl before after t f _ root' ext' Hf Htl Hdf Hnone).
Qed.

(** X20. Batch export to excel.  One workbook is opened at
    [join(dirname, basename(path))]; when every table has its [df] it
    gets one sheet per table, in list order, named
    [page-{page}-table-{order}], is saved once, and with [compress] is
    then the single entry of the archive.  When some table's [df] is
    [None] the call raises [AttributeError] after the workbook has been
    opened and the sheets of the earlier tables written: the workbook is
    never saved and no archive is made. *)
Theorem export_excel (tl : TableList) (path : string) (compress : bool) :
  let root := (path_splitext (path_basename path)).1 in
  let dirname := if compress then tmpdir else path_dirname path in
  let filepath := path_join dirname (path_basename path) in
  let zipname := String.append (path_join (path_dirname path) root) ".zip" in
  let opened := (if compress then [mkdtemp] else []) ++ [ExcelWriter filepath] in
  (Forall (λ t, df t ≠ None) (_tables tl) →
   export path_join path_join1 path_dirname path_basename path_splitext tmpdir
          tl path "excel" compress =
     (Done tt,
      opened ++ concat (sheet filepath <$> _tables tl) ++ [writer_save filepath] ++
      (if compress then
         [ZipFile_open zipname;
          ZipFile_write zipname filepath (path_basename filepath);
          ZipFile_close zipname]
       else []))) ∧
  (∀ before t after,
     _tables tl = before ++ t :: after →
     Forall (λ t, df t ≠ None) before → df t = None →
     export path_join path_join1 path_dirname path_basename path_splitext tmpdir
            tl path "excel" compress =
       (Failed AttributeError, opened ++ concat (sheet filepath <$> before))).
Proof.
  intros root dirname filepath zipname opened. subst opened.
  unfold export. fold root.
  destruct (path_splitext (path_basename path)) as [root' ext'] eqn:E.
  simpl in root. subst root. split.
  - intros Hdf.
    assert (Hsheets : ∀ fp, Forall (λ t : Table,
              match df t with
              | Some d =>
                  (Done tt,
                   [DataFrame_to_excel d fp
                      [("sheet_name"%string, PStr (sheet_name t));
                       ("encoding"%string, PStr "utf-8")]])
              | None => io_raise AttributeError
              end = (Done tt, sheet fp t)) (_tables tl)).
    { intros fp. eapply Forall_impl; [exact Hdf|]. intros t Ht. unfold sheet.
      destruct (df t) eqn:Et; [reflexivity|congruence]. }
    destruct compress;
      unfold mbind, mret, IO_bind, IO_ret, io_bind, io_ret, emit;
      cbn -[io_for_each String.append];
      rewrite (io_for_each_done _ _ _ (Hsheets _)); cbn -[String.append];
      rewrite <- ?app_assoc; reflexivity.
  - intros before t after Htl Hdf Hnone.
    assert (Hsheets : ∀ fp, Forall (λ t : Table,
              match df t with
              | Some d =>
                  (Done tt,
                   [DataFrame_to_excel d fp
                      [("sheet_name"%string, PStr (sheet_name t));
                       ("encoding"%string, PStr "utf-8")]])
              | None => io_raise AttributeError
              end = (Done tt, sheet fp t)) before).
    { intros fp. eapply Forall_impl; [exact Hdf|]. intros t' Ht'. unfold sheet.
      destruct (df t') eqn:Et; [reflexivity|congruence]. }
    destruct compress;
      unfold mbind, mret, IO_bind, IO_ret, io_bind, io_ret, emit;
      cbn -[io_for_each String.append];
      rewrite Htl;
      (erewrite (io_for_each_failed before after t _ _ AttributeError []);
       [ | apply Hsheets | by rewrite Hnone ]);
      by rewrite app_nil_r.
Qed.

(** X21. Export with a format other than csv, json, html or excel does
    nothing and reports nothing: the call returns normally without
    writing a file, whatever the tables are; with [compress] it has
    nevertheless made a temporary directory. *)
Theorem export_unknown_format (tl : TableList) (path f : string)
    (compress : bool) :
  str_in f ["csv"; "json"; "html"; "excel"]%string = false →
  export path_join path_join1 path_dirname path_basename path_splitext tmpdir
         tl path f compress =
    (Done tt, if compress then [mkdtemp] else []).
Proof.
  unfold str_in. simpl. rewrite !orb_false_iff.
  intros (Hcsv & Hjson & Hhtml & Hexcel & _).
  unfold export, str_in.
  destruct (path_splitext (path_basename path)) as [root ext].
  destruct compress;
    unfold mbind, mret, IO_bind, IO_ret, io_bind, io_ret, emit;
    cbn -[String.eqb]; rewrite Hcsv, Hjson, Hhtml, Hexcel; reflexivity.
Qed.

End ExportFacts.

(** * The worked scenario *)

Local Open Scope float_scope.

(** C1, as stated, fails: with the segment given as (0, 20, 0, 0) the
    coordinate that anchors the starting row is [v[3] = 0], which is
    close to neither row top (20, 10), so the segment is discarded and
    [cells[0][0].left] is not set. *)
Lemma scenario_as_stated_sets_nothing :
  ¬ ∃ c00 c10,
      cell_at (cells (set_edges np_isclose scenario [(0, 20, 0, 0)] [] 2).2) 0 0
        = Some c00 ∧
      cell_at (cells (set_edges np_isclose scenario [(0, 20, 0, 0)] [] 2).2) 1 0
        = Some c10 ∧
      left c00 = true ∧ left c10 = true.
Proof.
  intros (c00 & c10 & H00 & _ & Hl & _).
  vm_compute in H00. injection H00 as <-. discriminate Hl.
Qed.

(** C1, as the code has it.  On the 2 by 2 scenario with tolerance 2 and
    no horizontal lines, the vertical segment (0, 20, 0, 0) leaves the
    table as constructed, no flag set.  Given bottom-up as (0, 0, 0, 20),
    so that [v[3] = 20] anchors row 0 and [v[1] = 0] runs to the table
    edge, it sets [left] on cells[0][0] and cells[1][0] and no other
    boundary flag. *)
Theorem scenario_left_edge :
  set_edges np_isclose scenario [(0, 20, 0, 0)] [] 2 = (Returned tt, scenario) ∧
  (set_edges np_isclose scenario [(0, 0, 0, 20)] [] 2).1 = Returned tt ∧
  flags_of (set_edges np_isclose scenario [(0, 0, 0, 20)] [] 2).2 =
    [[(true, false, false, false); (false, false, false, false)];
     [(true, false, false, false); (false, false, false, false)]].
Proof. repeat split. Qed.

(** C2: the code at the claim's input.  The horizontal segment
    (0, 0, 20, 0) lies on the bottom edge of the scenario: its y = 0 is
    close to no row top, its left end is anchored at column 0 and its
    right end at no column.  Bottom flags belong on the last row, row 1.
    The branch computes [I = len(self.rows) - 1] but subscripts with [L]:
    with no vertical line before it the call raises, and after the
    vertical segment (0, 0, 0, 20), which leaves [L = 0], the bottom
    flags land on row 0 and the last row gets none. *)
Theorem bottom_edge_uses_stale_L :
  (set_edges np_isclose scenario [] [(0, 0, 20, 0)] 2).1
    = Raised UnboundLocalError ∧
  (set_edges np_isclose scenario [(0, 0, 0, 20)] [(0, 0, 20, 0)] 2).1
    = Returned tt ∧
  flags_of (set_edges np_isclose scenario [(0, 0, 0, 20)] [(0, 0, 20, 0)] 2).2 =
    [[(true, false, false, true); (false, false, false, true)];
     [(true, false, false, false); (false, false, false, false)]].
Proof. repeat split. Qed.

(** C8, as stated, fails: the [text] getter does not trim. *)
Lemma text_read_is_not_trimmed :
  text (foldl text_setter (Cell_init 0 0 10 10) [" a"; "b "]%string)
  ≠ strip (String.concat EmptyString [" a"; "b "]%string).
Proof. vm_compute. discriminate. Qed.

(** C3, as stated, fails on a table that has been through span inference
    before.  On the single row of two cells, [set_border] then
    [set_span] give both cells [hspan]; [set_all_edges] then bounds all
    four sides of each; the next [set_span] finds [bound = 4] and leaves
    the cell alone, so after it a cell with four bounded sides still has
    [hspan] set. *)
Lemma span_outlives_all_edges :
  reachable np_isclose (set_all_edges (set_span (set_border wide).2).2).2 ∧
  ¬ ∀ r c cell',
      cell_at (cells (set_span (set_all_edges
                 (set_span (set_border wide).2).2).2).2) r c = Some cell' →
      bound cell' = 4%Z → hspan cell' = false ∧ vspan cell' = false.
Proof.
  split.
  - apply reach_set_all_edges, reach_set_span, reach_set_border, reach_init.
  - intros H.
    destruct (H 0%nat 0%nat _ eq_refl eq_refl) as [Hh _]. discriminate Hh.
Qed.

(** C6, as stated, fails.  The segment (0, 5, 0, 20) runs from y = 20
    down to y = 5, and its lower extremity 5 is close to no row boundary
    of the scenario, top or bottom (20, 10 and 0, tolerance 2).  It is
    not discarded: [v[3] = 20] anchors row 0, [v[1] = 5] matches no row
    top, the run is extended to the last row and [left] is set on
    cells[0][0] and cells[1][0]. *)
Lemma lower_end_unmatched_still_draws :
  (5 <? 20) = true ∧
  Forall (λ row : float * float,
            np_isclose 5 row.1 2 = false ∧ np_isclose 5 row.2 2 = false)
         scenario_rows ∧
  (set_edges np_isclose scenario [(0, 5, 0, 20)] [] 2).1 = Returned tt ∧
  flags_of (set_edges np_isclose scenario [(0, 5, 0, 20)] [] 2).2 =
    [[(true, false, false, false); (false, false, false, false)];
     [(true, false, false, false); (false, false, false, false)]] ∧
  flags_of (set_edges np_isclose scenario [(0, 5, 0, 20)] [] 2).2 ≠
    flags_of scenario.
Proof.
  split; [reflexivity|]. split; [repeat constructor|].
  split; [reflexivity|]. split; [reflexivity|].
  vm_compute. discriminate.
Qed.

(** ** Instances *)

Example strip_both_ends :
  strip "  two words  "%string = "two words"%string ∧
  strip (String "009" (String "a" (String "010" EmptyString))) = "a"%string ∧
  strip "   "%string = EmptyString.
Proof. repeat split. Qed.

(** The border of a 3 by 3 grid: 12 flags, none on the centre cell. *)
Example square3_border :
  flags_of (set_border square3).2 =
    [[(true, false, true, false); (false, false, true, false);
      (false, true, true, false)];
     [(true, false, false, false); (false, false, false, false);
      (false, true, false, false)];
     [(true, false, false, true); (false, false, false, true);
      (false, true, false, true)]] ∧
  total_bound (cells (set_border square3).2) = 12%Z.
Proof. split; reflexivity. Qed.

(** An interior vertical line of the 3 by 3 grid, at x = 10 over the
    full height: [right] on column 0 and [left] on column 1. *)
Example square3_interior_vertical :
  flags_of (set_edges np_isclose square3 [(10, 0, 10, 30)] [] 2).2 =
    [[(false, true, false, false); (true, false, false, false);
      (false, false, false, false)];
     [(false, true, false, false); (true, false, false, false);
      (false, false, false, false)];
     [(false, true, false, false); (true, false, false, false);
      (false, false, false, false)]].
Proof. reflexivity. Qed.

Lemma scenario_has_shape : has_shape 2 2 (cells scenario).
Proof. split; [reflexivity|]. repeat constructor. Defined.

Lemma scenario_unbounded : unbounded (cells scenario).
Proof.
  intros r c cell H.
  destruct r as [|[|r]]; destruct c as [|[|c]]; simpl in H;
    try discriminate; injection H as <-; repeat split.
Defined.

(** C5 on the scenario: 2*2 + 2*2 = 8 flags. *)
Lemma set_border_perimeter_scenario :
  ∃ t', set_border scenario = (Returned tt, t') ∧
    has_shape 2 2 (cells t') ∧
    total_bound (cells t') = 8%Z ∧
    (∀ r c cell', cell_at (cells t') r c = Some cell' →
       (left cell' = true ↔ c = 0%nat) ∧
       (right cell' = true ↔ c = 1%nat) ∧
       (top cell' = true ↔ r = 0%nat) ∧
       (bottom cell' = true ↔ r = 1%nat)) ∧
    (∀ r c cell', cell_at (cells t') r c = Some cell' →
       (0 < r < 1)%nat → (0 < c < 1)%nat → bound cell' = 0%Z).
Proof.
  apply (set_border_perimeter scenario 2 2).
  - lia.
  - lia.
  - reflexivity.
  - reflexivity.
  - exact scenario_has_shape.
  - exact scenario_unbounded.
Defined.

(** C6 on the scenario: the segment (0, 20, 0, 0) is unanchored, and
    the segment (0, 5, 0, 20), anchored at row 0 with [v[1] = 5] close to
    no row top, runs to the last row. *)
Lemma unanchored_vertical_scenario :
  (close_indices np_isclose (l3 (0, 20, 0, 0)) 2 (rows scenario) = [] ∧
   set_edges np_isclose scenario [(0, 0, 0, 20); (0, 20, 0, 0)] [] 2 =
   set_edges np_isclose scenario [(0, 0, 0, 20)] [] 2) ∧
  (close_indices np_isclose (l3 (0, 5, 0, 20)) 2 (rows scenario) = [0%Z] ∧
   close_indices np_isclose (l1 (0, 5, 0, 20)) 2 (rows scenario) = [] ∧
   ∃ t', set_edges np_isclose scenario [(0, 5, 0, 20)] [] 2 = (Returned tt, t') ∧
     runs_to_last_row scenario t' 0).
Proof.
  split.
  - split; [reflexivity|].
    exact (proj2 (proj1 (unanchored_vertical_discarded np_isclose scenario
                           (0, 20, 0, 0) 2) eq_refl)
                 [(0, 0, 0, 20)] [] []).
  - split; [reflexivity|]. split; [reflexivity|].
    apply (proj2 (unanchored_vertical_discarded np_isclose scenario
                    (0, 5, 0, 20) 2) 0%nat []).
    + exact scenario_has_shape.
    + simpl. lia.
    + reflexivity.
    + reflexivity.
Defined.

Lemma wide_bordered_unspanned : unspanned (cells (set_border wide).2).
Proof.
  intros r c cell H.
  destruct r as [|r]; destruct c as [|[|c]]; simpl in H;
    try discriminate; injection H as <-; repeat split.
Defined.

(** A bordered single row of two cells: after span inference both cells
    span horizontally (three sides bounded, the shared side missing). *)
Example wide_spans :
  (λ row : list Cell, (λ c, (hspan c, vspan c)) <$> row)
    <$> cells (set_span (set_border wide).2).2
  = [[(true, false); (true, false)]].
Proof. reflexivity. Qed.

(** C3 on the bordered single row. *)
Lemma set_span_classifies_wide :
  unspanned (cells (set_border wide).2) ∧
  ∀ r c cell', cell_at (cells (set_span (set_border wide).2).2) r c = Some cell' →
    classified cell'.
Proof.
  split; [exact wide_bordered_unspanned|].
  apply (proj1 (proj2 (set_span_classifies np_isclose)) (set_border wide).2).
  exact wide_bordered_unspanned.
Defined.

(** Text assigned in three calls, two of them to the same cell. *)
Example scenario_data :
  data (call (for_each scenario_ops assign_text) scenario).2
  = [["ab"; ""]; [""; "x"]]%string.
Proof. reflexivity. Qed.

(** C8 on the scenario and those three assignments. *)
Lemma text_accumulates_scenario :
  ∃ t', call (for_each scenario_ops assign_text)
             (Table_init scenario_cols scenario_rows) = (Returned tt, t') ∧
    length (data t') = 2%nat ∧
    Forall (λ row, length row = 2%nat) (data t') ∧
    ∀ r c, (r < 2)%nat → (c < 2)%nat →
      data t' !! r ≫= (λ row, row !! c) =
      Some (strip (String.concat EmptyString (appended scenario_ops r c))).
Proof.
  apply (proj2 (proj2 text_accumulates) scenario_cols scenario_rows scenario_ops).
  repeat constructor.
Defined.


(** ** Further instances *)

Lemma square3_well_formed : well_formed square3.
Proof. split; [reflexivity|]. repeat constructor. Defined.

Lemma scenario_well_formed : well_formed scenario.
Proof. split; [reflexivity|]. repeat constructor. Defined.

Lemma wide_well_formed : well_formed wide.
Proof. split; [reflexivity|]. repeat constructor. Defined.

Lemma no_cols_well_formed : well_formed no_cols.
Proof. split; [reflexivity|]. repeat constructor. Defined.

Lemma square3_top_anchored :
  Forall (row_anchored np_isclose (rows square3) 2) [(0, 30, 30, 30)].
Proof. repeat constructor. unfold row_anchored. vm_compute. discriminate. Defined.

(** X8 on the 3 by 3 grid: an interior vertical line and the top line. *)
Lemma set_edges_draws_square3 :
  ∃ t', set_edges np_isclose square3 [(10, 0, 10, 30)] [(0, 30, 30, 30)] 2
          = (Returned tt, t') ∧
    cols t' = cols square3 ∧ rows t' = rows square3 ∧ well_formed t' ∧
    ∀ r c, cell_at (cells t') r c =
           mark (drawn np_isclose (cols square3) (rows square3) 2
                   [(10, 0, 10, 30)] [(0, 30, 30, 30)] r c)
             <$> cell_at (cells square3) r c.
Proof.
  apply (set_edges_draws np_isclose square3).
  - exact square3_well_formed.
  - simpl. lia.
  - exact square3_top_anchored.
Defined.

Example square3_drawn :
  flags_of (set_edges np_isclose square3 [(10, 0, 10, 30)] [(0, 30, 30, 30)] 2).2 =
    [[(false, true, true, false); (true, false, true, false);
      (false, false, true, false)];
     [(false, true, false, false); (true, false, false, false);
      (false, false, false, false)];
     [(false, true, false, false); (true, false, false, false);
      (false, false, false, false)]].
Proof. reflexivity. Qed.

(** X9 on the 3 by 3 grid: two interior vertical lines in either order. *)
Lemma set_edges_order_square3 :
  set_edges np_isclose square3 [(10, 0, 10, 30); (20, 0, 20, 30)]
            [(0, 30, 30, 30)] 2 =
  set_edges np_isclose square3 [(20, 0, 20, 30); (10, 0, 10, 30)]
            [(0, 30, 30, 30)] 2.
Proof.
  apply (set_edges_order_independent np_isclose square3).
  - exact square3_well_formed.
  - simpl. lia.
  - exact square3_top_anchored.
  - apply perm_swap.
  - reflexivity.
Defined.

(** X10 on the 3 by 3 grid. *)
Lemma set_edges_idempotent_square3 :
  set_edges np_isclose
    (set_edges np_isclose square3 [(10, 0, 10, 30)] [(0, 30, 30, 30)] 2).2
    [(10, 0, 10, 30)] [(0, 30, 30, 30)] 2 =
  set_edges np_isclose square3 [(10, 0, 10, 30)] [(0, 30, 30, 30)] 2.
Proof.
  apply (set_edges_idempotent np_isclose square3).
  - exact square3_well_formed.
  - simpl. lia.
  - exact square3_top_anchored.
Defined.

(** X11 on the scenario with tolerance 12: x = 0 is close to both column
    starts (0 and 10), so the first match is column 0 and [right] lands
    on the last column, column 1. *)
Lemma shared_vertical_line_wraps :
  ∃ t', set_edges np_isclose scenario [(0, 0, 0, 20)] [] 12 = (Returned tt, t') ∧
    ∀ r c cell, cell_at (cells scenario) r c = Some cell →
      ∃ cell', cell_at (cells t') r c = Some cell' ∧
        same_but_flags cell cell' ∧
        left cell' =
          left cell ||
          bool_decide ((0 ≤ r < run_end (close_indices np_isclose
                                           (l1 (0, 0, 0, 20)%float) 12%float
                                           (rows scenario))
                                        (length (rows scenario)))%nat ∧ c = 0%nat) ∧
        right cell' =
          right cell ||
          bool_decide ((0 ≤ r < run_end (close_indices np_isclose
                                           (l1 (0, 0, 0, 20)%float) 12%float
                                           (rows scenario))
                                        (length (rows scenario)))%nat ∧
                       c = wrap_pred (length (cols scenario)) 0) ∧
        top cell' = top cell ∧ bottom cell' = bottom cell.
Proof.
  apply (shared_vertical_line np_isclose scenario (0, 0, 0, 20) 12 0 0 [1%Z] [1%Z]).
  - exact scenario_well_formed.
  - reflexivity.
  - right. discriminate.
  - reflexivity.
Defined.

Example scenario_wrap_flags :
  wrap_pred (length (cols scenario)) 0 = 1%nat ∧
  flags_of (set_edges np_isclose scenario [(0, 0, 0, 20)] [] 12).2 =
    [[(true, false, false, false); (false, true, false, false)];
     [(false, false, false, false); (false, false, false, false)]].
Proof. split; reflexivity. Qed.

(** X12 on the scenario: a horizontal segment starting at x = 5. *)
Lemma unanchored_horizontal_scenario :
  close_indices np_isclose (l0 (5, 20, 15, 20)) 2 (cols scenario) = [] ∧
  set_edges np_isclose scenario [(0, 0, 0, 20)] [(0, 20, 20, 20); (5, 20, 15, 20)] 2 =
  set_edges np_isclose scenario [(0, 0, 0, 20)] [(0, 20, 20, 20)] 2.
Proof.
  split; [reflexivity|].
  apply (unanchored_horizontal_discarded np_isclose scenario [(0, 0, 0, 20)]
           [(0, 20, 20, 20)] [] (5, 20, 15, 20) 2).
  reflexivity.
Defined.

(** X13 on the scenario: the bottom line (0, 0, 20, 0). *)
Lemma bottom_edge_lands_on_L_scenario :
  (∀ L0 l, py_index (length scenario_rows) L0 = Some l →
     ∃ g', horizontal_step np_isclose scenario_cols scenario_rows 2
             (0, 0, 20, 0) (Some L0) (cells scenario)
             = (Returned (Some L0), g') ∧
       has_shape (length scenario_rows) (length scenario_cols) g' ∧
       ∀ r c cell, cell_at (cells scenario) r c = Some cell →
         ∃ cell', cell_at g' r c = Some cell' ∧ same_but_flags cell cell' ∧
           left cell' = left cell ∧ right cell' = right cell ∧
           top cell' = top cell ∧
           bottom cell' =
             bottom cell ||
             bool_decide (r = l ∧
               (0 ≤ c < run_end (close_indices np_isclose
                                   (l2 (0, 0, 20, 0)%float) 2%float
                                   scenario_cols)
                                (length scenario_cols))%nat)) ∧
  ((0 < run_end (close_indices np_isclose (l2 (0, 0, 20, 0)%float) 2%float
                           scenario_cols)
                (length scenario_cols))%nat →
   horizontal_step np_isclose scenario_cols scenario_rows 2 (0, 0, 20, 0) None
     (cells scenario) = (Raised UnboundLocalError, cells scenario)).
Proof.
  apply (bottom_edge_lands_on_L np_isclose scenario_cols scenario_rows 2
           (0, 0, 20, 0) 0 [] (cells scenario)).
  - exact scenario_well_formed.
  - reflexivity.
  - reflexivity.
Defined.

(** X15 on the single row of two cells. *)
Lemma set_border_any_wide :
  (∃ t', set_border wide = (Returned tt, t') ∧ well_formed t' ∧
     ∀ r c cell, cell_at (cells wide) r c = Some cell →
       ∃ cell', cell_at (cells t') r c = Some cell' ∧
         same_but_flags cell cell' ∧
         left cell' = left cell || bool_decide (c = 0%nat) ∧
         right cell' = right cell || bool_decide (c = (length (cols wide) - 1)%nat) ∧
         top cell' = top cell || bool_decide (r = 0%nat) ∧
         bottom cell' = bottom cell || bool_decide (r = (length (rows wide) - 1)%nat)) ∧
  set_border (set_border wide).2 = set_border wide.
Proof.
  apply (set_border_any wide).
  - exact wide_well_formed.
  - simpl. lia.
  - simpl. lia.
Defined.

(** X16 on the single row of two cells: both cells span horizontally. *)
Lemma border_then_span_wide :
  ∃ t1 t2, set_border wide = (Returned tt, t1) ∧
    set_span t1 = (Returned tt, t2) ∧
    ∀ r c cell, cell_at (cells t2) r c = Some cell →
      (hspan cell = true ↔ length (rows wide) = 1%nat ∧ (2 ≤ length (cols wide))%nat) ∧
      (vspan cell = true ↔ length (cols wide) = 1%nat ∧ (2 ≤ length (rows wide))%nat).
Proof.
  apply (border_then_span (cols wide) (rows wide)); discriminate.
Defined.

(** X17 on the table of two rows and no column. *)
Lemma set_edges_no_columns_raises :
  set_edges np_isclose no_cols [(0, 0, 0, 20); (10, 0, 10, 20)] [] 2
  = (Raised IndexError, no_cols).
Proof.
  apply (set_edges_no_columns np_isclose no_cols (0, 0, 0, 20)
           [(10, 0, 10, 20)] [] 2 0 []).
  - exact no_cols_well_formed.
  - reflexivity.
  - reflexivity.
  - simpl. lia.
Defined.


(** ** Export instances *)

Example posix_paths :
  posix_dirname "out/tables.csv" = "out"%string ∧
  posix_basename "out/tables.csv" = "tables.csv"%string ∧
  posix_splitext "tables.csv" = ("tables", ".csv")%string ∧
  posix_splitext ".hidden" = (".hidden", "")%string ∧
  posix_dirname "tables.csv" = ""%string ∧
  posix_dirname "/tables.csv" = "/"%string ∧
  posix_join "out" "tables.zip" = "out/tables.zip"%string ∧
  posix_join "" "tables.zip" = "tables.zip"%string.
Proof. repeat split. Qed.

Lemma both_tables_have_df :
  Forall (λ t : Table, df t ≠ None) [page1_table1; page1_table2].
Proof. repeat constructor; discriminate. Defined.

(** X18 on two tables of page 1, compressed. *)
Lemma export_csv_zip :
  posix_export (mkTableList [page1_table1; page1_table2]) "out/tables.csv" "csv" true
  = (Done tt,
     [mkdtemp;
      DataFrame_to_csv [["a"; "b"]; ["c"; "d"]]%string
        "/tmp/tmpk3/tables-page-1-table-1.csv" csv_kw;
      DataFrame_to_csv [["e"; "f"]; ["g"; "h"]]%string
        "/tmp/tmpk3/tables-page-1-table-2.csv" csv_kw;
      ZipFile_open "out/tables.zip";
      ZipFile_write "out/tables.zip" "/tmp/tmpk3/tables-page-1-table-1.csv"
        "tables-page-1-table-1.csv";
      ZipFile_write "out/tables.zip" "/tmp/tmpk3/tables-page-1-table-2.csv"
        "tables-page-1-table-2.csv";
      ZipFile_close "out/tables.zip"]) ∧
  2%nat = length [page1_table1; page1_table2].
Proof.
  exact (export_writes_every_table posix_join id posix_dirname posix_basename
           posix_splitext "/tmp/tmpk3"
           (mkTableList [page1_table1; page1_table2]) "out/tables.csv" "csv" true
           eq_refl both_tables_have_df).
Defined.

(** X19: the second of three tables has no [df] yet. *)
Lemma export_json_stops :
  posix_export (mkTableList [page1_table1; scenario; page1_table2])
    "out/tables.json" "json" false
  = (Failed AttributeError,
     [write_text "out/tables-page-1-table-1.json"
        (DataFrame_to_json [["a"; "b"]; ["c"; "d"]]%string
           [("orient", PStr "records")]%string)]).
Proof.
  refine (export_stops_at_missing_df posix_join id posix_dirname posix_basename
            posix_splitext "/tmp/tmpk3"
            (mkTableList [page1_table1; scenario; page1_table2])
            [page1_table1] [page1_table2] scenario "out/tables.json" "json" false
            eq_refl eq_refl _ eq_refl).
  repeat constructor; discriminate.
Defined.

(** X20 on the same tables, one workbook. *)
Lemma export_excel_workbook :
  posix_export (mkTableList [page1_table1; page1_table2]) "out/tables.xlsx"
    "excel" false
  = (Done tt,
     [ExcelWriter "out/tables.xlsx";
      DataFrame_to_excel [["a"; "b"]; ["c"; "d"]]%string "out/tables.xlsx"
        [("sheet_name", PStr "page-1-table-1"); ("encoding", PStr "utf-8")]%string;
      DataFrame_to_excel [["e"; "f"]; ["g"; "h"]]%string "out/tables.xlsx"
        [("sheet_name", PStr "page-1-table-2"); ("encoding", PStr "utf-8")]%string;
      writer_save "out/tables.xlsx"]).
Proof.
  exact (proj1 (export_excel posix_join id posix_dirname posix_basename
                  posix_splitext "/tmp/tmpk3"
                  (mkTableList [page1_table1; page1_table2]) "out/tables.xlsx"
                  false)
               both_tables_have_df).
Defined.

(** X21: an unsupported format, compressed. *)
Lemma export_xml_nothing :
  posix_export (mkTableList [page1_table1; page1_table2]) "out/tables.xml" "xml" true
  = (Done tt, [mkdtemp]).
Proof.
  exact (export_unknown_format posix_join id posix_dirname posix_basename
           posix_splitext "/tmp/tmpk3"
           (mkTableList [page1_table1; page1_table2]) "out/tables.xml" "xml" true
           eq_refl).
Defined.

(** A table that has no page or order yet gets the name of [None]. *)
Example unnumbered_filename :
  table_filename "tables" scenario ".csv" = "tables-page-None-table-None.csv"%string.
Proof. reflexivity. Qed.
